(** * nevergrad: reinforcement-learning adapter layer ([functions/rl/base.py])

    A shallow embedding of [StepOutcome], the agent and multi-agent
    environment contracts, [PartialMultiAgentEnv], [SingleAgentEnv] and
    [EnvironmentRunner], followed by the properties of the specification.

    Conventions of the embedding.
    - A Python [dict] keyed by strings is an insertion-ordered association
      list ([dict V]); a well-formed dict has pairwise distinct keys
      ([dict_wf]).  Iteration ([for k in d], [d.items()]) follows the list.
    - A Python object with mutable state is a value of a state type; a
      method takes the state and returns the new one (state passing).
    - A call that may raise returns a [result]; exceptions are identified
      by their class ([exn]), a [ValueError] also by its message.
    - Arguments passed as [**kwargs] are a dict; the binding of the
      keywords at the call is part of the function ([bind_keywords]).
    - Every call made on a collaborator (environment or agent) is recorded
      in a log of [event]s, carried by the writer-and-error monad [M].
    - Rewards are integers (the type [StepReturn] of the source declares
      [Dict[str, int]]).  The sums and the averages of the runner are
      floats: a finite double is the number it holds (an integer for a sum
      of rewards, a rational for an average), and each operation rounds as
      IEEE 754 does, to the nearest double, ties to even.  What the source
      does beyond the range of the doubles ([OverflowError], infinities)
      is outside the model. *)

From Stdlib Require Import List String ZArith QArith Qround Bool Lia.
Import ListNotations.
Open Scope string_scope.
Open Scope list_scope.
Open Scope Z_scope.

(** ** Exceptions and results *)

(** The message of an exception that the source formats: a literal, or a
    literal followed by a [set] of names (an f-string; Python prints the
    names of a set in an order it does not fix). *)
Inductive message : Type :=
| Text (text : string)
| TextSet (text : string) (names : list string).

Inductive exn : Type :=
| ValueError (msg : message)
| TypeError
| KeyError
| AssertionError
| AttributeError
| IndexError
| ZeroDivisionError
| OverflowError
| NotImplementedError.

(** The outcome of a call: a value, a raised exception, or [OutOfFuel]
    when a [while] loop was cut by the fuel of the model (the loop of the
    source would still be running). *)
Inductive result (A : Type) : Type :=
| Ok (a : A)
| Raise (e : exn)
| OutOfFuel.
Arguments Ok {A} a.
Arguments Raise {A} e.
Arguments OutOfFuel {A}.

(** ** Insertion-ordered dictionaries *)

Definition dict (V : Type) : Type := list (string * V).

Definition keys {V} (d : dict V) : list string := map fst d.

Definition dict_wf {V} (d : dict V) : Prop := NoDup (keys d).

(** [d.get(k)] *)
Fixpoint dict_get {V} (k : string) (d : dict V) : option V :=
  match d with
  | [] => None
  | (k', v) :: d' => if String.eqb k k' then Some v else dict_get k d'
  end.

(** [d.get(k, dflt)] *)
Definition get_default {V} (k : string) (dflt : V) (d : dict V) : V :=
  match dict_get k d with
  | Some v => v
  | None => dflt
  end.

(** [d[k]] *)
Definition getitem {V} (k : string) (d : dict V) : result V :=
  match dict_get k d with
  | Some v => Ok v
  | None => Raise KeyError
  end.

(** [bool(d)] of a container: true when it is not empty. *)
Definition truthy {X} (l : list X) : bool :=
  match l with
  | [] => false
  | _ :: _ => true
  end.

(** [k in d] *)
Definition mem {V} (k : string) (d : dict V) : bool :=
  match dict_get k d with
  | Some _ => true
  | None => false
  end.

(** [d[k] = v]: an existing key keeps its position, a new one is appended. *)
Fixpoint dict_set {V} (k : string) (v : V) (d : dict V) : dict V :=
  match d with
  | [] => [(k, v)]
  | (k', v') :: d' =>
      if String.eqb k k' then (k', v) :: d' else (k', v') :: dict_set k v d'
  end.

(** [{k: f(k, v) for k, v in items}], built by successive assignments. *)
Definition dict_of_items {V W} (f : string -> V -> W) (items : list (string * V))
  : dict W :=
  fold_left (fun acc kv => dict_set (fst kv) (f (fst kv) (snd kv)) acc) items [].

(** [d.update(other)] *)
Definition update {V} (d other : dict V) : dict V :=
  fold_left (fun acc kv => dict_set (fst kv) (snd kv) acc) other d.

(** The binding of [**kwargs] at a call of a function whose other
    parameters are called [parameters]: a keyword that names one of them
    is refused with a [TypeError] (multiple values for the argument)
    before the body runs; the other keywords make the dict. *)
Definition bind_keywords {V} (parameters : list string) (kwargs : dict V)
  : result (dict V) :=
  if existsb (fun parameter => mem parameter kwargs) parameters
  then Raise TypeError
  else Ok kwargs.

(** [name in names] on a list of strings *)
Definition name_in (k : string) (l : list string) : bool :=
  existsb (String.eqb k) l.

(** The list [names] minus the names of [removed], in the words of the
    specification: every removed name is taken out in turn, the others
    stay where they were. *)
Fixpoint remove_names (removed names : list string) : list string :=
  match removed with
  | [] => names
  | r :: rs => remove_names rs (List.remove string_dec r names)
  end.

(** ** Floats *)

(** A float that is only compared, such as [max_step]: a finite number,
    an infinity or NaN. *)
Inductive pyfloat : Type :=
| Finite (q : Q)
| PosInf
| NegInf
| NaN.

(** An integral bound, or none: [Some m] is read as the float [m] and
    [None] as [float("inf")]. *)
Definition bound (m : option Z) : pyfloat :=
  match m with
  | Some m => Finite (inject_Z m)
  | None => PosInf
  end.
#[warnings="-uniform-inheritance"]
Coercion bound : option >-> pyfloat.
Arguments bound : simpl never.

(** [n < x] for an integer [n] and a float [x]: Python compares the two
    numbers exactly, and nothing is below NaN. *)
Definition int_lt_float (n : Z) (x : pyfloat) : bool :=
  match x with
  | Finite q => negb (Qle_bool q (inject_Z n))
  | PosInf => true
  | NegInf | NaN => false
  end.

(** The integer nearest to [n / d], for [0 < d]; ties go to the even one. *)
Definition round_half_even (n d : Z) : Z :=
  let q := n / d in
  match 2 * (n mod d) ?= d with
  | Lt => q
  | Eq => if Z.even q then q else q + 1
  | Gt => q + 1
  end.

(** [float(z)]: the double nearest to the integer [z].  A double has 53
    significant binary digits, so an integer that needs more is rounded to
    a multiple of a power of two. *)
Definition to_double (z : Z) : Z :=
  let e := Z.max 0 (Z.log2 (Z.abs z) - 52) in
  round_half_even z (2 ^ e) * 2 ^ e.

(** Whether [float(z)] is a double: an integer that rounds to [2 ^ 1024]
    or beyond is too large to convert, and [float(z)] raises
    [OverflowError]. *)
Definition fits_double (z : Z) : bool := Z.abs (to_double z) <? 2 ^ 1024.

(** [x + y] for two floats that hold integers: the sum is rounded. *)
Definition float_add (x y : Z) : Z := to_double (x + y).

(** [x + n] for a float [x] that holds an integer and an integer [n]:
    [n] is converted to a float first. *)
Definition float_add_int (x n : Z) : Z := float_add x (to_double n).

(** The position of the leading binary digit of [n / d], that is the
    integer part of its logarithm in base 2, for [n <> 0] and [0 < d]. *)
Definition binade (n d : Z) : Z :=
  let c := Z.log2 (Z.abs n) - Z.log2 d in
  if (if 0 <=? c then d * 2 ^ c <=? Z.abs n
      else d <=? Z.abs n * 2 ^ (- c))
  then c
  else c - 1.

(** The double nearest to the rational [q]: a multiple of [2 ^ e] where
    [e] leaves 53 significant binary digits, and is not below the exponent
    [-1074] of the smallest doubles. *)
Definition round_double (q : Q) : Q :=
  let q := Qred q in
  let n := Qnum q in
  let d := Zpos (Qden q) in
  if n =? 0 then q
  else
    let e := Z.max (binade n d - 52) (-1074) in
    Qred (if 0 <=? e
          then inject_Z (round_half_even n (d * 2 ^ e) * 2 ^ e)
          else Qmake (round_half_even (n * 2 ^ (- e)) d)
                     (Z.to_pos (2 ^ (- e)))).

(** [x / k] for a float [x] that holds an integer and an integer
    [k <> 0]: [k] is converted to a float and the quotient is rounded;
    zero divided by any number is zero, here [0 / k]. *)
Definition float_div (x k : Z) : Q :=
  if x =? 0 then (inject_Z x / inject_Z k)%Q
  else round_double (inject_Z x / inject_Z (to_double k)).

Section Model.

Context {Obs Action Val Space : Type}.

(** ** StepOutcome *)

(** The side-information of an outcome, a [Dict[Any, Any]]. *)
Definition Info : Type := dict Val.

Record StepOutcome : Type := mkStepOutcome {
  observation : Obs;
  reward : option Z;
  done : bool;
  info : Info
}.

(** The ray-like multi-agent return type
    [(observations, rewards, done flags, infos)]. *)
Definition StepReturn : Type :=
  (dict Obs * dict (option Z) * dict bool * dict Info)%type.

(** [StepOutcome.from_multiagent_step].  The loop [for agent in obs] with
    its [obs[agent]] runs over the items of [obs].  A missing reward is
    read as [None]; a reward stored as [None] is read as [None] as well. *)
Definition from_multiagent_step (obs : dict Obs) (reward : dict (option Z))
    (done : dict bool) (info : dict Info) : dict StepOutcome * bool :=
  let outcomes :=
    dict_of_items
      (fun agent o =>
         mkStepOutcome o
           (get_default agent None reward)
           (get_default agent (get_default "__all__" false done) done)
           (get_default agent [] info))
      obs in
  (outcomes, get_default "__all__" false done).

(** [StepOutcome.to_multiagent_step] *)
Definition to_multiagent_step (outcomes : dict StepOutcome) (done_flag : bool)
  : StepReturn :=
  let obs := dict_of_items (fun _ outcome => observation outcome) outcomes in
  let reward := dict_of_items (fun _ outcome => reward outcome) outcomes in
  let done_dict := dict_of_items (fun _ outcome => done outcome) outcomes in
  let info := dict_of_items (fun _ outcome => info outcome) outcomes in
  let done_dict := dict_set "__all__" done_flag done_dict in
  (obs, reward, done_dict, info).

(** [StepOutcome.__init__]: [info=None] stands for an empty mapping. *)
Definition StepOutcome_init (observation : Obs) (reward : option Z)
    (done : bool) (info : option Info) : StepOutcome :=
  mkStepOutcome observation reward done
    (match info with None => [] | Some i => i end).

(** ** The log of collaborator calls and the monad of the model *)

Inductive event : Type :=
| EnvCopy
| EnvReset
| EnvStep (action_dict : dict Action)
| GymReset
| GymStep (action : Action)
| AgentCopy (name : string)
| AgentReset (name : string)
| AgentAct (name : string) (outcome : StepOutcome).

Definition M (X : Type) : Type := result (X * list event).

Definition ret {X} (x : X) : M X := Ok (x, []).

Definition raise {X} (e : exn) : M X := Raise e.

Definition bind {X Y} (m : M X) (k : X -> M Y) : M Y :=
  match m with
  | Ok (x, l1) =>
      match k x with
      | Ok (y, l2) => Ok (y, l1 ++ l2)
      | Raise e => Raise e
      | OutOfFuel => OutOfFuel
      end
  | Raise e => Raise e
  | OutOfFuel => OutOfFuel
  end.

Notation "x <- m ;; k" := (bind m (fun x => k))
  (at level 61, m at next level, right associativity).

(** A computation of the model that calls no collaborator. *)
Definition lift {X} (r : result X) : M X :=
  match r with
  | Ok x => Ok (x, [])
  | Raise e => Raise e
  | OutOfFuel => OutOfFuel
  end.

(** A call on a collaborator, recorded as [ev]. *)
Definition call {X} (ev : event) (r : result X) : M X :=
  match r with
  | Ok x => Ok (x, [ev])
  | Raise e => Raise e
  | OutOfFuel => OutOfFuel
  end.

(** What the caller of a method sees: its outcome without its log. *)
Definition forget {X} (m : M X) : result X :=
  match m with
  | Ok (x, _) => Ok x
  | Raise e => Raise e
  | OutOfFuel => OutOfFuel
  end.

(** [assert cond, message]: the message is evaluated only when the test
    fails, and an exception raised while building it replaces the
    [AssertionError]. *)
Definition assert_ (cond : bool) (message : result string) : M unit :=
  if cond then ret tt
  else match message with
       | Ok _ => raise AssertionError
       | Raise e => raise e
       | OutOfFuel => OutOfFuel
       end.

(** [{k: f(k, v) for k, v in items}] where [f] may raise. *)
Fixpoint dict_of_items_r {V W} (f : string -> V -> result W)
    (items : list (string * V)) (acc : dict W) : result (dict W) :=
  match items with
  | [] => Ok acc
  | (k, v) :: rest =>
      match f k v with
      | Ok w => dict_of_items_r f rest (dict_set k w acc)
      | Raise e => Raise e
      | OutOfFuel => OutOfFuel
      end
  end.

(** ** The contracts of the collaborators *)

(** [Agent]: a policy with internal state [A]. *)
Class Agent (A : Type) : Type := {
  act : A -> Obs -> option Z -> bool -> Info -> result (A * Action);
  agent_reset : A -> result A;
  agent_copy : A -> result A
}.

(** The base class [Agent] itself: [act] is not implemented, [reset] does
    nothing, [copy] builds a fresh instance. *)
Definition Agent_base : Agent unit := {|
  act := fun _ _ _ _ _ => Raise NotImplementedError;
  agent_reset := fun self => Ok self;
  agent_copy := fun _ => Ok tt
|}.

(** [MultiAgentEnv]: an environment with state [E]. *)
Class MultiAgentEnv (E : Type) : Type := {
  observation_space : E -> Space;
  action_space : E -> Space;
  agent_names : E -> list string;
  reset : E -> result (E * dict Obs);
  step : E -> dict Action -> result (E * StepReturn);
  copy : E -> result E
}.

(** [gym.Env]: the classic single-agent environment, with state [G]. *)
Class GymEnv (G : Type) : Type := {
  gym_reset : G -> result (G * Obs);
  gym_step : G -> Action -> result (G * (Obs * option Z * bool * option Info))
}.

(** [{name: agents[name].act(o, r, d, i) for name, (o, r, d, i) in outcomes.items()}]:
    the agents act in the order of [outcomes]; the agent found under [name]
    is left in the state its [act] produced. *)
Fixpoint act_agents {A} `{Agent A} (agents : dict A)
    (outcomes : list (string * StepOutcome)) (actions : dict Action)
  : M (dict A * dict Action) :=
  match outcomes with
  | [] => ret (agents, actions)
  | (name, outcome) :: rest =>
      agent <- lift (getitem name agents) ;;
      r <- call (AgentAct name outcome)
             (act agent (observation outcome) (reward outcome)
                        (done outcome) (info outcome)) ;;
      act_agents (dict_set name (fst r) agents) rest
                 (dict_set name (snd r) actions)
  end.

(** ** PartialMultiAgentEnv *)

Section Partial.

Context {E A : Type} `{MultiAgentEnv E} `{Agent A}.

Record PartialMultiAgentEnv : Type := mkPartialMultiAgentEnv {
  pm_env : E;
  pm_agents : dict A;
  pm_agent_names : list string;
  pm_observation_space : Space;
  pm_action_space : Space;
  pm_agents_outcome : dict StepOutcome
}.

(** [{name: agent.copy() for name, agent in agents.items()}] *)
Fixpoint copy_agents (items : list (string * A)) (acc : dict A) : M (dict A) :=
  match items with
  | [] => ret acc
  | (name, agent) :: rest =>
      agent' <- call (AgentCopy name) (agent_copy agent) ;;
      copy_agents rest (dict_set name agent' acc)
  end.

(** [set(agents) - set(env.agent_names)] *)
Definition unknown_agents (env : E) (agents : dict A) : list string :=
  filter (fun name => negb (name_in name (agent_names env))) (keys agents).

(** [PartialMultiAgentEnv.__init__(self, env, **agents)]: the delegated
    agents are keyword arguments.  The message of the [ValueError] is the
    f-string of the source, with its spelling. *)
Definition PartialMultiAgentEnv_init (env : E) (agents : dict A)
  : M PartialMultiAgentEnv :=
  agents <- lift (bind_keywords ["self"; "env"] agents) ;;
  self_env <- call EnvCopy (copy env) ;;
  self_agents <- copy_agents agents [] ;;
  r <- call EnvReset (reset self_env) ;;
  let self_env := fst r in
  let unknown := unknown_agents env agents in
  if truthy unknown then
    raise (ValueError (TextSet "Unkwnon agents: " unknown))
  else
    ret {| pm_env := self_env;
           pm_agents := self_agents;
           pm_agent_names :=
             filter (fun an => negb (mem an agents)) (agent_names env);
           pm_observation_space := observation_space env;
           pm_action_space := action_space env;
           pm_agents_outcome := [] |}.

(** [MultiAgentEnv.with_agent(self, **agents)] *)
Definition with_agent (self : E) (agents : dict A) : M PartialMultiAgentEnv :=
  agents <- lift (bind_keywords ["self"] agents) ;;
  PartialMultiAgentEnv_init self agents.

(** [{name: outcomes[name] for name in self.agents}] *)
Definition agents_outcome (agents : dict A) (outcomes : dict StepOutcome)
  : result (dict StepOutcome) :=
  dict_of_items_r (fun name _ => getitem name outcomes) agents [].

(** The entries of [outcomes] whose name is not in [self.agents]. *)
Definition not_delegated {V} (agents : dict A) (outcomes : dict V)
  : list (string * V) :=
  filter (fun kv => negb (mem (fst kv) agents)) outcomes.

(** [PartialMultiAgentEnv.reset] *)
Definition PartialMultiAgentEnv_reset (self : PartialMultiAgentEnv)
  : M (PartialMultiAgentEnv * dict Obs) :=
  r <- call EnvReset (reset (pm_env self)) ;;
  let outcomes := fst (from_multiagent_step (snd r) [] [] []) in
  cache <- lift (agents_outcome (pm_agents self) outcomes) ;;
  ret ({| pm_env := fst r;
          pm_agents := pm_agents self;
          pm_agent_names := pm_agent_names self;
          pm_observation_space := pm_observation_space self;
          pm_action_space := pm_action_space self;
          pm_agents_outcome := cache |},
       dict_of_items (fun _ outcome => observation outcome)
         (not_delegated (pm_agents self) outcomes)).

(** [PartialMultiAgentEnv.step] *)
Definition PartialMultiAgentEnv_step (self : PartialMultiAgentEnv)
    (action_dict : dict Action) : M (PartialMultiAgentEnv * StepReturn) :=
  acted <- act_agents (pm_agents self) (pm_agents_outcome self) [] ;;
  let self_agents := fst acted in
  let full_action_dict := update (snd acted) action_dict in
  r <- call (EnvStep full_action_dict) (step (pm_env self) full_action_dict) ;;
  let '(self_env, (obs, reward, done, info)) := r in
  let '(outcomes, done) := from_multiagent_step obs reward done info in
  cache <- lift (agents_outcome self_agents outcomes) ;;
  ret ({| pm_env := self_env;
          pm_agents := self_agents;
          pm_agent_names := pm_agent_names self;
          pm_observation_space := pm_observation_space self;
          pm_action_space := pm_action_space self;
          pm_agents_outcome := cache |},
       to_multiagent_step
         (dict_of_items (fun _ outcome => outcome)
            (not_delegated self_agents outcomes))
         done).

(** [PartialMultiAgentEnv.copy]: [self.__class__(self.env, **self.agents)] *)
Definition PartialMultiAgentEnv_copy (self : PartialMultiAgentEnv)
  : M PartialMultiAgentEnv :=
  PartialMultiAgentEnv_init (pm_env self) (pm_agents self).

(** A [PartialMultiAgentEnv] is a [MultiAgentEnv]. *)
#[export] Instance PartialMultiAgentEnv_env : MultiAgentEnv PartialMultiAgentEnv := {|
  observation_space := pm_observation_space;
  action_space := pm_action_space;
  agent_names := pm_agent_names;
  reset := fun self => forget (PartialMultiAgentEnv_reset self);
  step := fun self action_dict =>
            forget (PartialMultiAgentEnv_step self action_dict);
  copy := fun self => forget (PartialMultiAgentEnv_copy self)
|}.

(** The states a wrapper goes through after its construction: any
    sequence of [reset] and [step] calls that returned. *)
Inductive wrapper_steps (w0 : PartialMultiAgentEnv)
  : PartialMultiAgentEnv -> Prop :=
| steps_none : wrapper_steps w0 w0
| steps_reset w w' obs log :
    wrapper_steps w0 w ->
    PartialMultiAgentEnv_reset w = Ok ((w', obs), log) ->
    wrapper_steps w0 w'
| steps_step w action_dict w' ret log :
    wrapper_steps w0 w ->
    PartialMultiAgentEnv_step w action_dict = Ok ((w', ret), log) ->
    wrapper_steps w0 w'.

(** ** SingleAgentEnv *)

Record SingleAgentEnv : Type := mkSingleAgentEnv {
  sa_env : PartialMultiAgentEnv;
  sa_observation_space : Space;
  sa_action_space : Space;
  sa_agent_name : string
}.

(** [self.agent_names] read on a [SingleAgentEnv] under construction: the
    class and its base [gym.Env] define no such attribute. *)
Definition SingleAgentEnv_agent_names : result string := Raise AttributeError.

(** [SingleAgentEnv.__init__] *)
Definition SingleAgentEnv_init (env : PartialMultiAgentEnv) : M SingleAgentEnv :=
  _ <- assert_ (Nat.eqb (List.length (agent_names env)) 1)
         SingleAgentEnv_agent_names ;;
  self_env <- call EnvCopy (copy env) ;;
  _ <- call EnvReset (reset self_env) ;;
  agent_name <- lift (match agent_names env with
                      | an :: _ => Ok an
                      | [] => Raise IndexError
                      end) ;;
  ret {| sa_env := env;
         sa_observation_space := observation_space env;
         sa_action_space := action_space env;
         sa_agent_name := agent_name |}.

(** [PartialMultiAgentEnv.as_single_agent] *)
Definition as_single_agent (self : PartialMultiAgentEnv) : M SingleAgentEnv :=
  SingleAgentEnv_init self.

(** [SingleAgentEnv.reset] *)
Definition SingleAgentEnv_reset (self : SingleAgentEnv)
  : M (SingleAgentEnv * Obs) :=
  r <- call EnvReset (reset (sa_env self)) ;;
  o <- lift (getitem (sa_agent_name self) (snd r)) ;;
  ret ({| sa_env := fst r;
          sa_observation_space := sa_observation_space self;
          sa_action_space := sa_action_space self;
          sa_agent_name := sa_agent_name self |}, o).

(** [SingleAgentEnv.step] *)
Definition SingleAgentEnv_step (self : SingleAgentEnv) (action : Action)
  : M (SingleAgentEnv * (Obs * option Z * bool * option Info)) :=
  let an := sa_agent_name self in
  r <- call (EnvStep [(an, action)]) (step (sa_env self) [(an, action)]) ;;
  let '(self_env, (obs, reward, done, info)) := r in
  o <- lift (getitem an obs) ;;
  rw <- lift (getitem an reward) ;;
  d <- lift (getitem an done) ;;
  all <- lift (getitem "__all__" done) ;;
  ret ({| sa_env := self_env;
          sa_observation_space := sa_observation_space self;
          sa_action_space := sa_action_space self;
          sa_agent_name := an |},
       (o, rw, orb d all, Some (get_default an [] info))).

(** [SingleAgentEnv.copy] *)
Definition SingleAgentEnv_copy (self : SingleAgentEnv) : M SingleAgentEnv :=
  env' <- call EnvCopy (copy (sa_env self)) ;;
  SingleAgentEnv_init env'.

(** A [SingleAgentEnv] is a [gym.Env]. *)
#[export] Instance SingleAgentEnv_gym : GymEnv SingleAgentEnv := {|
  gym_reset := fun self => forget (SingleAgentEnv_reset self);
  gym_step := fun self action => forget (SingleAgentEnv_step self action)
|}.

End Partial.

(** ** EnvironmentRunner *)

Section Runner.

Context {G E A : Type} `{GymEnv G} `{MultiAgentEnv E} `{Agent A}.

(** The environment of a runner, with the answer to
    [isinstance(self.env, gym.Env)]. *)
Inductive runner_env : Type :=
| Gym (g : G)
| Multi (e : E).

(** [num_repetitions] is an integer and [max_step] a float, by default
    [float("inf")]. *)
Record EnvironmentRunner : Type := mkEnvironmentRunner {
  er_env : runner_env;
  num_repetitions : Z;
  max_step : pyfloat
}.

Definition san : string := "single_agent_name".

(** [for agent in agents.values(): agent.reset()] *)
Fixpoint reset_agents (todo : list (string * A)) (agents : dict A) : M (dict A) :=
  match todo with
  | [] => ret agents
  | (name, agent) :: rest =>
      agent' <- call (AgentReset name) (agent_reset agent) ;;
      reset_agents rest (dict_set name agent' agents)
  end.

(** [for name, outcome in outcomes.items():
       assert outcome.reward is not None
       reward_sum[name] += outcome.reward]
    on a [defaultdict(float)]: a float sum that starts from [0.0], to
    which an integer is added. *)
Fixpoint accumulate (outcomes : list (string * StepOutcome))
    (reward_sum : dict Z) : M (dict Z) :=
  match outcomes with
  | [] => ret reward_sum
  | (name, outcome) :: rest =>
      match reward outcome with
      | None => raise AssertionError
      | Some r =>
          accumulate rest
            (dict_set name (float_add_int (get_default name 0 reward_sum) r)
               reward_sum)
      end
  end.

(** [self.env.reset()] seen through [StepOutcome], lines 168-171. *)
Definition runner_reset (env : runner_env)
  : M (runner_env * dict StepOutcome * bool) :=
  match env with
  | Gym g =>
      r <- call GymReset (gym_reset g) ;;
      ret (Gym (fst r), [(san, StepOutcome_init (snd r) None false None)], false)
  | Multi e =>
      r <- call EnvReset (reset e) ;;
      let '(outcomes, done) := from_multiagent_step (snd r) [] [] [] in
      ret (Multi (fst r), outcomes, done)
  end.

(** [self.env.step(...)] seen through [StepOutcome], lines 178-182. *)
Definition runner_step (env : runner_env) (actions : dict Action)
  : M (runner_env * dict StepOutcome * bool) :=
  match env with
  | Gym g =>
      action <- lift (getitem san actions) ;;
      r <- call (GymStep action) (gym_step g action) ;;
      let '(g', (o, rw, d, i)) := r in
      let outcome := StepOutcome_init o rw d i in
      ret (Gym g', [(san, outcome)], done outcome)
  | Multi e =>
      r <- call (EnvStep actions) (step e actions) ;;
      let '(e', (obs, reward, done, info)) := r in
      let '(outcomes, done) := from_multiagent_step obs reward done info in
      ret (Multi e', outcomes, done)
  end.

(** The state of the [while] loop of [_run_once]. *)
Record loop_state : Type := mkLoopState {
  ls_env : runner_env;
  ls_agents : dict A;
  ls_outcomes : dict StepOutcome;
  ls_done : bool;
  ls_reward_sum : dict Z;
  ls_step : Z
}.

(** The body of the [while] loop, lines 175-186. *)
Definition loop_body (s : loop_state) : M loop_state :=
  acted <- act_agents (ls_agents s) (ls_outcomes s) [] ;;
  let '(agents, actions) := acted in
  stepped <- runner_step (ls_env s) actions ;;
  let '(env, outcomes, done) := stepped in
  reward_sum <- accumulate outcomes (ls_reward_sum s) ;;
  ret {| ls_env := env;
         ls_agents := agents;
         ls_outcomes := outcomes;
         ls_done := done;
         ls_reward_sum := reward_sum;
         ls_step := ls_step s + 1 |}.

(** [step < self.max_step and not done] *)
Definition loop_test (max_step : pyfloat) (s : loop_state) : bool :=
  int_lt_float (ls_step s) max_step && negb (ls_done s).

(** The [while] loop, line 174. *)
Fixpoint run_loop (fuel : nat) (max_step : pyfloat) (s : loop_state)
  : M loop_state :=
  if loop_test max_step s then
    match fuel with
    | O => OutOfFuel
    | S fuel' =>
        s' <- loop_body s ;;
        run_loop fuel' max_step s'
    end
  else ret s.

(** The agents of an episode: the call
    [_run_once(self, *single_agent, **agents)] binds the named agents as
    keywords, then lines 162-165 take the single unnamed agent under the
    name [san], or the named agents. *)
Definition local_agents (single_agent : list A) (agents : dict A)
  : result (dict A) :=
  match bind_keywords ["self"] agents with
  | Ok agents =>
      if Nat.eqb (List.length single_agent) 1 && negb (truthy agents) then
        Ok (match single_agent with
            | agent :: _ => [(san, agent)]
            | [] => []
            end)
      else if truthy single_agent || negb (truthy agents) then
        Raise (ValueError
                 (Text "Either provide 1 unnamed agent or several named agents"))
      else Ok agents
  | Raise e => Raise e
  | OutOfFuel => OutOfFuel
  end.

(** [EnvironmentRunner._run_once].  Besides the reward sums it returns the
    objects it has mutated: the runner (its environment) and the agents. *)
Definition _run_once (fuel : nat) (self : EnvironmentRunner)
    (single_agent : list A) (agents : dict A)
  : M (dict Z * EnvironmentRunner * list A * dict A) :=
  let single := Nat.eqb (List.length single_agent) 1 && negb (truthy agents) in
  local <- lift (local_agents single_agent agents) ;;
  local <- reset_agents local local ;;
  start <- runner_reset (er_env self) ;;
  let '(env, outcomes, done) := start in
  s <- run_loop fuel (max_step self)
         {| ls_env := env;
            ls_agents := local;
            ls_outcomes := outcomes;
            ls_done := done;
            ls_reward_sum := [];
            ls_step := 0 |} ;;
  final <- act_agents (ls_agents s) (ls_outcomes s) [] ;;
  let local := fst final in
  ret (ls_reward_sum s,
       {| er_env := ls_env s;
          num_repetitions := num_repetitions self;
          max_step := max_step self |},
       if single then map snd local else single_agent,
       if single then agents else local).

(** [for name, value in rewards.items(): sum_rewards[name] += value],
    on floats. *)
Fixpoint add_rewards (rewards : list (string * Z)) (sum_rewards : dict Z)
  : result (dict Z) :=
  match rewards with
  | [] => Ok sum_rewards
  | (name, value) :: rest =>
      match getitem name sum_rewards with
      | Ok old =>
          add_rewards rest (dict_set name (float_add old value) sum_rewards)
      | Raise e => Raise e
      | OutOfFuel => OutOfFuel
      end
  end.

(** [for _ in range(self.num_repetitions): ...], lines 151-154, on [n]
    repetitions still to run. *)
Fixpoint repetitions (n : nat) (fuel : nat) (self : EnvironmentRunner)
    (agent : list A) (agents : dict A) (sum_rewards : dict Z)
  : M (dict Z * EnvironmentRunner * list A * dict A) :=
  match n with
  | O => ret (sum_rewards, self, agent, agents)
  | S n' =>
      r <- _run_once fuel self agent agents ;;
      let '(rewards, self, agent, agents) := r in
      sum_rewards <- lift (add_rewards rewards sum_rewards) ;;
      repetitions n' fuel self agent agents sum_rewards
  end.

(** The value of [run]: a float or a [Dict[str, float]]. *)
Inductive run_value : Type :=
| Scalar (q : Q)
| Mapping (d : dict Q).

(** [float(value) / self.num_repetitions]: the division of a float by an
    integer, which is converted to a float first. *)
Definition mean (k : Z) (value : Z) : result Q :=
  if negb (fits_double k) then Raise OverflowError
  else if k =? 0 then Raise ZeroDivisionError
  else Ok (float_div value k).

(** [{name: 0.0 for name in agents} if agents else {san: 0.0}] *)
Definition initial_sums (agents : dict A) : dict Z :=
  if truthy agents then dict_of_items (fun _ _ => 0) agents
  else [(san, 0)].

(** [EnvironmentRunner.run(self, *agent, **agents)] *)
Definition run (fuel : nat) (self : EnvironmentRunner)
    (agent : list A) (agents : dict A)
  : M (run_value * EnvironmentRunner * list A * dict A) :=
  agents <- lift (bind_keywords ["self"] agents) ;;
  let sum_rewards := initial_sums agents in
  r <- repetitions (Z.to_nat (num_repetitions self)) fuel self agent agents
         sum_rewards ;;
  let '(sum_rewards, self, agent, agents) := r in
  mean_rewards <- lift (dict_of_items_r
                          (fun _ value => mean (num_repetitions self) value)
                          sum_rewards []) ;;
  match er_env self with
  | Gym _ =>
      v <- lift (getitem san mean_rewards) ;;
      ret (Scalar v, self, agent, agents)
  | Multi _ => ret (Mapping mean_rewards, self, agent, agents)
  end.

(** *** Vocabulary of the statements about the runner *)

(** [isinstance(env, gym.Env)] *)
Definition is_gym (env : runner_env) : bool :=
  match env with
  | Gym _ => true
  | Multi _ => false
  end.

(** What the [while] loop keeps true as long as its cycles return: the
    reward sums are those of participants that the agents cover or that
    hold an outcome, and the kind of the environment and the names of the
    agents do not change. *)
Definition cycle_sound (names : list string) (gym : bool) (s : loop_state)
  : Prop :=
  dict_wf (ls_reward_sum s)
  /\ (forall k, In k (keys (ls_reward_sum s)) ->
                In k names \/ In k (keys (ls_outcomes s)))
  /\ keys (ls_agents s) = names
  /\ is_gym (ls_env s) = gym
  /\ (gym = true -> In san (keys (ls_outcomes s))).

(** The calls of the [step] of the environment in a log. *)
Definition is_step (ev : event) : bool :=
  match ev with
  | EnvStep _ | GymStep _ => true
  | _ => false
  end.

Definition count_steps (log : list event) : nat :=
  List.length (filter is_step log).

(** Agents whose methods return. *)
Definition agents_return : Prop :=
  (forall (a : A) o r d i, exists a' action, act a o r d i = Ok (a', action))
  /\ (forall a : A, exists a', agent_reset a = Ok a').









End Runner.

End Model.

Arguments StepOutcome : clear implicits.
Arguments StepReturn : clear implicits.
Arguments Info : clear implicits.
Arguments event : clear implicits.
Arguments PartialMultiAgentEnv {Obs Val Space} E A.
Arguments SingleAgentEnv {Obs Val Space} E A.
Arguments runner_env : clear implicits.
Arguments EnvironmentRunner : clear implicits.
Arguments loop_state {Obs Val} G E A.
Arguments run_value : clear implicits.

(** * A concrete game, to run the model on

    Two players; a step pays [1] to each player whose action is [0] and
    [0] to the others.  A [duel] ends after one step, an [endless] game
    never ends.  The observation is the number of steps played. *)

Module Game.

Definition players : list string := ["player_0"; "player_1"].

Definition table {V} (v : V) : dict V := map (fun name => (name, v)) players.

Definition payoff (action_dict : dict Z) : dict (option Z) :=
  map (fun name =>
         (name, Some (match dict_get name action_dict with
                      | Some 0 => 1
                      | _ => 0
                      end)))
      players.

Definition play (over : bool) (clock : nat) (action_dict : dict Z)
  : nat * StepReturn nat Z :=
  (S clock,
   (table (S clock), payoff action_dict, [("__all__", over)], [])).

Record duel : Type := mkDuel { duel_clock : nat }.

Record endless : Type := mkEndless { endless_clock : nat }.

#[export] Instance duel_env : @MultiAgentEnv nat Z Z unit duel := {|
  observation_space := fun _ => tt;
  action_space := fun _ => tt;
  agent_names := fun _ => players;
  reset := fun _ => Ok (mkDuel 0, table 0%nat);
  step := fun g action_dict =>
            let '(clock, ret) := play true (duel_clock g) action_dict in
            Ok (mkDuel clock, ret);
  copy := fun g => Ok g
|}.

#[export] Instance endless_env : @MultiAgentEnv nat Z Z unit endless := {|
  observation_space := fun _ => tt;
  action_space := fun _ => tt;
  agent_names := fun _ => players;
  reset := fun _ => Ok (mkEndless 0, table 0%nat);
  step := fun g action_dict =>
            let '(clock, ret) := play false (endless_clock g) action_dict in
            Ok (mkEndless clock, ret);
  copy := fun g => Ok g
|}.

(** An agent that always plays the same action. *)
Record constant : Type := mkConstant { plays : Z }.

#[export] Instance constant_agent : @Agent nat Z Z constant := {|
  act := fun self _ _ _ _ => Ok (self, plays self);
  agent_reset := fun self => Ok self;
  agent_copy := fun self => Ok self
|}.

(** A classic single-agent game that pays [1] per step and never ends. *)
Record solo : Type := mkSolo { solo_clock : nat }.

#[export] Instance solo_env : @GymEnv nat Z Z solo := {|
  gym_reset := fun _ => (Ok (mkSolo 0, 0%nat));
  gym_step := fun g _ =>
                Ok (mkSolo (S (solo_clock g)),
                    (S (solo_clock g), Some 1, false, None))
|}.

(** A classic single-agent game that pays [prize] at its only step. *)
Record jackpot : Type := mkJackpot { prize : Z }.

#[export] Instance jackpot_env : @GymEnv nat Z Z jackpot := {|
  gym_reset := fun g => Ok (g, 0%nat);
  gym_step := fun g _ => Ok (g, (1%nat, Some (prize g), true, None))
|}.

(** The inputs of the examples: the mappings of a step, the agents, the
    wrapper built by [duel.with_agent(player_1=constant)] as its
    construction leaves it and as its first [reset] leaves it, the wrapper
    built with no agent at all, and the runners. *)

Definition obs0 : dict nat := [("player_0", 7%nat); ("player_1", 9%nat)].
Definition reward0 : dict (option Z) := [("player_0", Some 1)].
Definition done0 : dict bool := [("player_1", true); ("__all__", false)].
Definition info0 : dict (Info Z) := [].

Definition delegate : dict constant := [("player_1", mkConstant 0)].

Definition both_agents : dict constant :=
  [("player_0", mkConstant 2); ("player_1", mkConstant 0)].

Definition wrapped : @PartialMultiAgentEnv nat Z unit duel constant :=
  {| pm_env := mkDuel 0;
     pm_agents := delegate;
     pm_agent_names := ["player_0"];
     pm_observation_space := tt;
     pm_action_space := tt;
     pm_agents_outcome := [] |}.

Definition wrapped_ready : @PartialMultiAgentEnv nat Z unit duel constant :=
  {| pm_env := mkDuel 0;
     pm_agents := delegate;
     pm_agent_names := ["player_0"];
     pm_observation_space := tt;
     pm_action_space := tt;
     pm_agents_outcome := [("player_1", mkStepOutcome 0%nat None false [])] |}.

Definition both_exposed : @PartialMultiAgentEnv nat Z unit duel constant :=
  {| pm_env := mkDuel 0;
     pm_agents := [];
     pm_agent_names := players;
     pm_observation_space := tt;
     pm_action_space := tt;
     pm_agents_outcome := [] |}.

Definition none_exposed : @PartialMultiAgentEnv nat Z unit duel constant :=
  {| pm_env := mkDuel 0;
     pm_agents := both_agents;
     pm_agent_names := [];
     pm_observation_space := tt;
     pm_action_space := tt;
     pm_agents_outcome := [] |}.

Definition narrowed : @SingleAgentEnv nat Z unit duel constant :=
  {| sa_env := wrapped_ready;
     sa_observation_space := tt;
     sa_action_space := tt;
     sa_agent_name := "player_0" |}.

Definition duel_runner : EnvironmentRunner solo duel :=
  {| er_env := Multi (mkDuel 0); num_repetitions := 2; max_step := None |}.



Definition duel_rewards : dict Z := [("player_0", 0); ("player_1", 1)].

(** A game played in turns, that only reports the player whose turn it
    is and pays nothing: a step reports [player_0] alone, with no reward
    and no done flag; a reset reports both players when [everyone_starts],
    and [player_0] alone otherwise. *)
Record turns : Type := mkTurns { everyone_starts : bool; turns_clock : nat }.

#[export] Instance turns_env : @MultiAgentEnv nat Z Z unit turns := {|
  observation_space := fun _ => tt;
  action_space := fun _ => tt;
  agent_names := fun _ => players;
  reset := fun g =>
             Ok (mkTurns (everyone_starts g) 0,
                 if everyone_starts g then table 0%nat
                 else [("player_0", 0%nat)]);
  step := fun g _ =>
            Ok (mkTurns (everyone_starts g) (S (turns_clock g)),
                ([("player_0", S (turns_clock g))], [], [], []));
  copy := fun g => Ok g
|}.

Definition outcomes0 : dict (StepOutcome nat Z) :=
  [("player_0", mkStepOutcome 7%nat (Some 1) false []);
   ("player_1", mkStepOutcome 9%nat None true [])].

(** Wrappers over the game in turns, as a [reset] leaves them: with
    [player_1] delegated, and with [player_0] delegated. *)
Definition turns_wrapped (start : bool)
  : @PartialMultiAgentEnv nat Z unit turns constant :=
  {| pm_env := mkTurns start 0;
     pm_agents := delegate;
     pm_agent_names := ["player_0"];
     pm_observation_space := tt;
     pm_action_space := tt;
     pm_agents_outcome := [("player_1", mkStepOutcome 0%nat None false [])] |}.

Definition turns_narrowed : @SingleAgentEnv nat Z unit turns constant :=
  {| sa_env :=
       {| pm_env := mkTurns true 0;
          pm_agents := [("player_0", mkConstant 0)];
          pm_agent_names := ["player_1"];
          pm_observation_space := tt;
          pm_action_space := tt;
          pm_agents_outcome :=
            [("player_0", mkStepOutcome 0%nat None false [])] |};
     sa_observation_space := tt;
     sa_action_space := tt;
     sa_agent_name := "player_1" |}.


End Game.

(** * Properties *)

(** ** Dictionary lemmas *)

Section DictFacts.

Context {V : Type}.

Lemma dict_get_set_eq (k : string) (v : V) (d : dict V) :
  dict_get k (dict_set k v d) = Some v.
Proof.
  induction d as [|[k' v'] d IH]; simpl.
  - now rewrite String.eqb_refl.
  - destruct (String.eqb k k') eqn:E; simpl; rewrite E; auto.
Qed.

Lemma dict_get_set_neq (k k0 : string) (v : V) (d : dict V) :
  k <> k0 -> dict_get k (dict_set k0 v d) = dict_get k d.
Proof.
  intros Hne. induction d as [|[k' v'] d IH]; simpl.
  - destruct (String.eqb k k0) eqn:E; auto.
    apply String.eqb_eq in E. contradiction.
  - destruct (String.eqb k0 k') eqn:E0; simpl.
    + apply String.eqb_eq in E0. subst k'.
      destruct (String.eqb k k0) eqn:E; auto.
      apply String.eqb_eq in E. contradiction.
    + now rewrite IH.
Qed.

Lemma dict_get_In_keys (k : string) (d : dict V) :
  In k (keys d) <-> dict_get k d <> None.
Proof.
  induction d as [|[k' v'] d IH]; simpl.
  - split; [tauto | congruence].
  - destruct (String.eqb k k') eqn:E.
    + apply String.eqb_eq in E. subst. split; [congruence | auto].
    + apply String.eqb_neq in E. rewrite <- IH. split.
      * intros [H|H]; [congruence | auto].
      * auto.
Qed.

Lemma mem_In_keys (k : string) (d : dict V) :
  mem k d = true <-> In k (keys d).
Proof.
  rewrite dict_get_In_keys. unfold mem.
  destruct (dict_get k d); split; congruence.
Qed.

Lemma dict_get_not_In (k : string) (d : dict V) :
  ~ In k (keys d) -> dict_get k d = None.
Proof.
  rewrite dict_get_In_keys. destruct (dict_get k d); [|auto].
  intros H. exfalso. apply H. discriminate.
Qed.

Lemma dict_set_new (k : string) (v : V) (d : dict V) :
  ~ In k (keys d) -> dict_set k v d = d ++ [(k, v)].
Proof.
  induction d as [|[k' v'] d IH]; simpl; intros Hn; auto.
  destruct (String.eqb k k') eqn:E.
  - apply String.eqb_eq in E. subst. tauto.
  - rewrite IH; auto.
Qed.

Lemma keys_app (d1 d2 : dict V) : keys (d1 ++ d2) = keys d1 ++ keys d2.
Proof. apply map_app. Qed.

Lemma keys_dict_set_In (k k0 : string) (v : V) (d : dict V) :
  In k (keys (dict_set k0 v d)) <-> k = k0 \/ In k (keys d).
Proof.
  rewrite !dict_get_In_keys.
  destruct (string_dec k k0) as [->|Hne].
  - rewrite dict_get_set_eq. split; [auto | discriminate].
  - rewrite dict_get_set_neq by auto. split; [auto | intros [?|?]; tauto].
Qed.

Lemma dict_set_wf (k : string) (v : V) (d : dict V) :
  dict_wf d -> dict_wf (dict_set k v d).
Proof.
  unfold dict_wf. induction d as [|[k' v'] d IH]; simpl; intros Hwf.
  - constructor; [simpl; tauto | constructor].
  - inversion Hwf as [|? ? Hni Hnd]; subst.
    destruct (String.eqb k k') eqn:E; simpl.
    + constructor; auto.
    + constructor; auto.
      change (~ In k' (keys (dict_set k v d))).
      rewrite keys_dict_set_In. apply String.eqb_neq in E.
      intros [?|?]; [congruence | auto].
Qed.

End DictFacts.

Section ItemsFacts.

Context {V W : Type}.
Variable f : string -> V -> W.

Let assign (acc : dict W) (kv : string * V) : dict W :=
  dict_set (fst kv) (f (fst kv) (snd kv)) acc.

Lemma fold_assign_wf (items : list (string * V)) (acc : dict W) :
  dict_wf acc -> dict_wf (fold_left assign items acc).
Proof.
  revert acc. induction items as [|[k v] items IH]; simpl; intros acc Hwf; auto.
  apply IH. unfold assign; simpl. now apply dict_set_wf.
Qed.

Lemma fold_assign_keys (items : list (string * V)) (acc : dict W) (k : string) :
  In k (keys (fold_left assign items acc)) <-> In k (keys acc) \/ In k (keys items).
Proof.
  revert acc. induction items as [|[k0 v] items IH]; simpl; intros acc.
  - tauto.
  - rewrite IH. unfold assign; simpl. rewrite keys_dict_set_In.
    split; intros H; intuition (subst; auto).
Qed.

Lemma fold_assign_fresh (items : list (string * V)) (acc : dict W) :
  NoDup (keys acc ++ keys items) ->
  fold_left assign items acc
  = acc ++ map (fun kv => (fst kv, f (fst kv) (snd kv))) items.
Proof.
  revert acc. induction items as [|[k v] items IH]; simpl; intros acc Hnd.
  - now rewrite app_nil_r.
  - unfold assign at 2; simpl.
    assert (Hk : ~ In k (keys acc)).
    { intros Hin. apply NoDup_remove_2 in Hnd. apply Hnd.
      apply in_or_app. now left. }
    rewrite dict_set_new by exact Hk.
    rewrite IH.
    + now rewrite <- app_assoc.
    + rewrite keys_app. simpl. rewrite <- app_assoc. exact Hnd.
Qed.

Lemma dict_of_items_wf (items : list (string * V)) :
  dict_wf (dict_of_items f items).
Proof. apply fold_assign_wf. constructor. Qed.

Lemma dict_of_items_keys (items : list (string * V)) (k : string) :
  In k (keys (dict_of_items f items)) <-> In k (keys items).
Proof.
  pose proof (fold_assign_keys items [] k) as H. simpl in H.
  unfold dict_of_items. unfold assign in H. tauto.
Qed.

Lemma dict_of_items_map (items : list (string * V)) :
  dict_wf items ->
  dict_of_items f items = map (fun kv => (fst kv, f (fst kv) (snd kv))) items.
Proof.
  intros Hwf. exact (fold_assign_fresh items [] Hwf).
Qed.

Lemma keys_map_items (items : list (string * V)) :
  keys (map (fun kv => (fst kv, f (fst kv) (snd kv))) items) = keys items.
Proof. unfold keys. rewrite map_map. reflexivity. Qed.

Lemma dict_get_map_items (items : list (string * V)) (k : string) :
  dict_get k (map (fun kv => (fst kv, f (fst kv) (snd kv))) items)
  = option_map (f k) (dict_get k items).
Proof.
  induction items as [|[k0 v] items IH]; simpl; auto.
  destruct (String.eqb k k0) eqn:E; auto.
  apply String.eqb_eq in E. now subst.
Qed.

End ItemsFacts.

(** ** StepOutcome: conversion from and to the multi-agent shape *)

Section OutcomeFacts.

Context {Obs Val : Type}.

Lemma map_items_id {V} (d : dict V) :
  map (fun kv : string * V => (fst kv, snd kv)) d = d.
Proof. induction d as [|[k v] d IH]; simpl; congruence. Qed.


(** Reading a field back from the outcomes built out of [obs]. *)
Lemma field_of_outcomes {W} (g : StepOutcome Obs Val -> W)
    (f : string -> Obs -> StepOutcome Obs Val) (obs : dict Obs) :
  dict_wf obs ->
  dict_of_items (fun _ outcome => g outcome) (dict_of_items f obs)
  = map (fun kv => (fst kv, g (f (fst kv) (snd kv)))) obs.
Proof.
  intros Hwf.
  rewrite (dict_of_items_map f obs Hwf).
  rewrite dict_of_items_map.
  - rewrite map_map. reflexivity.
  - unfold dict_wf. rewrite keys_map_items. exact Hwf.
Qed.

(** C2. [from_multiagent_step] returns a mapping with exactly the keys of
    [obs] (in the same order); the outcome of a name carries its
    observation, [reward.get(name, None)],
    [done.get(name, done.get("__all__", False))] and [info.get(name, {})];
    the second result is [done.get("__all__", False)].  The function is
    pure: it returns new values and assigns to none of its arguments. *)
Theorem from_multiagent_step_outcomes (obs : dict Obs)
    (rewards : dict (option Z)) (dones : dict bool)
    (infos : dict (Info Val)) :
  dict_wf obs ->
  keys (fst (from_multiagent_step obs rewards dones infos)) = keys obs
  /\ (forall name o,
        dict_get name obs = Some o ->
        dict_get name (fst (from_multiagent_step obs rewards dones infos))
        = Some (mkStepOutcome o
                  (match dict_get name rewards with
                   | Some r => r
                   | None => None
                   end)
                  (match dict_get name dones with
                   | Some d => d
                   | None => match dict_get "__all__" dones with
                             | Some d => d
                             | None => false
                             end
                   end)
                  (match dict_get name infos with
                   | Some i => i
                   | None => []
                   end)))
  /\ snd (from_multiagent_step obs rewards dones infos)
     = match dict_get "__all__" dones with
       | Some d => d
       | None => false
       end.
Proof.
  intros Hwf. unfold from_multiagent_step; simpl.
  rewrite (dict_of_items_map _ obs Hwf).
  split; [|split; [|reflexivity]].
  - unfold keys. rewrite map_map. reflexivity.
  - intros name o Hget.
    rewrite (dict_get_map_items
               (fun agent o =>
                  mkStepOutcome o (get_default agent None rewards)
                    (get_default agent (get_default "__all__" false dones)
                       dones)
                    (get_default agent [] infos)) obs name).
    rewrite Hget. reflexivity.
Qed.

(** C1. Converting a multi-agent shape to outcomes and back, with the
    flag [done.get("__all__", False)], gives back the observation mapping
    and the ["__all__"] flag; the rewards and the infos come back
    default-filled ([None] and the empty mapping for a missing entry), and
    so do the per-agent done flags.  The observation mapping need not be
    non-empty. *)
Theorem multiagent_step_roundtrip (obs : dict Obs) (reward : dict (option Z))
    (done : dict bool) (info : dict (Info Val)) :
  dict_wf obs ->
  let all := get_default "__all__" false done in
  let '(obs', reward', done', info') :=
    to_multiagent_step (fst (from_multiagent_step obs reward done info)) all in
  obs' = obs
  /\ dict_get "__all__" done' = Some all
  /\ forall name,
       In name (keys obs) ->
       dict_get name reward' = Some (get_default name None reward)
       /\ dict_get name info' = Some (get_default name [] info)
       /\ (name <> "__all__" ->
           dict_get name done' = Some (get_default name all done)).
Proof.
  intros Hwf all. unfold to_multiagent_step, from_multiagent_step; simpl.
  rewrite !(field_of_outcomes _ _ obs Hwf); simpl.
  split; [apply map_items_id|].
  split; [apply dict_get_set_eq|].
  intros name Hin.
  apply dict_get_In_keys in Hin.
  destruct (dict_get name obs) as [o|] eqn:Hget; [clear Hin|congruence].
  pose proof (fun W (h : string -> W) =>
                dict_get_map_items (fun agent (_ : Obs) => h agent) obs name)
    as Hfield.
  rewrite Hget in Hfield. simpl in Hfield.
  repeat split.
  - exact (Hfield _ (fun agent => get_default agent None reward)).
  - exact (Hfield _ (fun agent => get_default agent [] info)).
  - intros Hne. rewrite dict_get_set_neq by exact Hne.
    exact (Hfield _ (fun agent => get_default agent all done)).
Qed.

End OutcomeFacts.

(** ** The monad *)

Section MonadFacts.

Context {Obs Action Val : Type}.

Local Abbreviation M := (@M Obs Action Val).

Lemma bind_Ok {X Y} (m : M X) (k : X -> M Y) (y : Y) l :
  bind m k = Ok (y, l) ->
  exists x l1 l2, m = Ok (x, l1) /\ k x = Ok (y, l2) /\ l = l1 ++ l2.
Proof.
  unfold bind. destruct m as [[x l1]| |]; try discriminate.
  destruct (k x) as [[y' l2]| |] eqn:Hk; try discriminate.
  intros Heq. inversion Heq; subst. eauto 6.
Qed.

Lemma call_Ok {X} (ev : event Obs Action Val) (r : result X) x l :
  call ev r = Ok (x, l) -> r = Ok x /\ l = [ev].
Proof.
  destruct r; simpl; try discriminate.
  intros Heq. inversion Heq. auto.
Qed.

Lemma lift_Ok {X} (r : result X) x (l : list (event Obs Action Val)) :
  lift r = Ok (x, l) -> r = Ok x /\ l = [].
Proof.
  destruct r; simpl; try discriminate.
  intros Heq. inversion Heq. auto.
Qed.

Lemma ret_Ok {X} (x y : X) (l : list (event Obs Action Val)) :
  ret x = Ok (y, l) -> x = y /\ l = [].
Proof. unfold ret. intros Heq. inversion Heq. auto. Qed.

Lemma bind_returns {X Y} (m : M X) (k : X -> M Y) x l1 y l2 :
  m = Ok (x, l1) -> k x = Ok (y, l2) -> bind m k = Ok (y, l1 ++ l2).
Proof. intros -> Hk. simpl. now rewrite Hk. Qed.

Lemma bind_lift_Ok {X Y} (x : X) (k : X -> M Y) :
  bind (lift (Ok x)) k = k x.
Proof. simpl. destruct (k x) as [[y l]| |]; reflexivity. Qed.

Lemma bind_lift_Raise {X Y} (e : exn) (k : X -> M Y) :
  bind (lift (Raise e)) k = Raise e.
Proof. reflexivity. Qed.

Lemma forget_Ok {X} (m : M X) x :
  forget m = Ok x -> exists l, m = Ok (x, l).
Proof.
  destruct m as [[x' l]| |]; simpl; try discriminate.
  intros Heq. inversion Heq. eauto.
Qed.

End MonadFacts.

(** Take a successful computation apart, one bind at a time. *)
Ltac inv_M H :=
  let x := fresh "x" in
  let l1 := fresh "l" in
  let l2 := fresh "l" in
  let H1 := fresh "Hm" in
  let H2 := fresh "Hk" in
  let Hl := fresh "Hl" in
  first
    [ apply bind_Ok in H; destruct H as (x & l1 & l2 & H1 & H2 & Hl)
    | apply call_Ok in H; destruct H as [H1 Hl]
    | apply lift_Ok in H; destruct H as [H1 Hl]
    | apply ret_Ok in H; destruct H as [H1 Hl] ].

(** The same for every hypothesis, with the equations substituted. *)
Ltac monad_inv :=
  repeat match goal with
         | H : bind _ _ = Ok _ |- _ =>
             apply bind_Ok in H; destruct H as (? & ? & ? & ? & ? & ?)
         | H : call _ _ = Ok _ |- _ =>
             apply call_Ok in H; destruct H as [? ?]
         | H : lift _ = Ok _ |- _ =>
             apply lift_Ok in H; destruct H as [? ?]
         | H : ret _ = Ok _ |- _ =>
             apply ret_Ok in H; destruct H as [? ?]
         | H : (_, _) = (_, _) |- _ => inversion H; clear H
         end;
  subst.

(** ** More on dictionaries *)

Section DictMore.

Context {V : Type}.

Lemma keys_dict_set_present (k : string) (v : V) (d : dict V) :
  In k (keys d) -> keys (dict_set k v d) = keys d.
Proof.
  induction d as [|[k' v'] d IH]; simpl; intros Hin; [tauto|].
  destruct (String.eqb k k') eqn:E; simpl; [reflexivity|].
  apply String.eqb_neq in E. f_equal. apply IH.
  destruct Hin as [Hin|Hin]; [congruence | exact Hin].
Qed.

Lemma bind_keywords_Ok (parameters : list string) (kwargs bound : dict V) :
  bind_keywords parameters kwargs = Ok bound ->
  bound = kwargs
  /\ forall parameter, In parameter parameters -> mem parameter kwargs = false.
Proof.
  unfold bind_keywords.
  destruct (existsb _ parameters) eqn:Hex; [discriminate|].
  intros Hb. split; [congruence|]. intros parameter Hin.
  destruct (mem parameter kwargs) eqn:Hmem; [|reflexivity].
  assert (Ht : existsb (fun parameter => mem parameter kwargs) parameters
               = true)
    by (apply existsb_exists; eauto).
  congruence.
Qed.

Lemma bind_keywords_free (parameters : list string) (kwargs : dict V) :
  existsb (fun parameter => mem parameter kwargs) parameters = false ->
  bind_keywords parameters kwargs = Ok kwargs.
Proof. unfold bind_keywords. now intros ->. Qed.

Lemma bind_keywords_taken (parameters : list string) (kwargs : dict V) :
  existsb (fun parameter => mem parameter kwargs) parameters = true ->
  bind_keywords parameters kwargs = Raise TypeError.
Proof. unfold bind_keywords. now intros ->. Qed.

Lemma bind_self_free (kwargs : dict V) :
  mem "self" kwargs = false -> bind_keywords ["self"] kwargs = Ok kwargs.
Proof. intros Hself. apply bind_keywords_free. simpl. now rewrite Hself. Qed.

Lemma bind_self_taken (kwargs : dict V) :
  mem "self" kwargs = true -> bind_keywords ["self"] kwargs = Raise TypeError.
Proof. intros Hself. apply bind_keywords_taken. simpl. now rewrite Hself. Qed.

Lemma getitem_Ok (k : string) (d : dict V) (v : V) :
  getitem k d = Ok v -> dict_get k d = Some v.
Proof. unfold getitem. destruct (dict_get k d); congruence. Qed.

Lemma getitem_In (k : string) (d : dict V) (v : V) :
  getitem k d = Ok v -> In k (keys d).
Proof.
  intros Hg. apply getitem_Ok in Hg. apply dict_get_In_keys. congruence.
Qed.

Lemma getitem_of_In (k : string) (d : dict V) :
  In k (keys d) -> exists v, getitem k d = Ok v /\ dict_get k d = Some v.
Proof.
  intros Hin. apply dict_get_In_keys in Hin. unfold getitem.
  destruct (dict_get k d) as [v|]; [eauto | congruence].
Qed.

Lemma update_get (d other : dict V) (k : string) :
  dict_wf other ->
  dict_get k (update d other)
  = match dict_get k other with
    | Some v => Some v
    | None => dict_get k d
    end.
Proof.
  unfold update, dict_wf. revert d.
  induction other as [|[k0 v0] other IH]; simpl; intros d Hwf; [reflexivity|].
  inversion Hwf as [|? ? Hni Hnd]; subst.
  rewrite IH by exact Hnd.
  destruct (String.eqb k k0) eqn:E.
  - apply String.eqb_eq in E. subst k0.
    rewrite (dict_get_not_In k other Hni). apply dict_get_set_eq.
  - apply String.eqb_neq in E.
    rewrite dict_get_set_neq by exact E. reflexivity.
Qed.

Lemma filter_names_remove (r : string) (names : list string) :
  List.remove string_dec r names
  = filter (fun an => negb (String.eqb an r)) names.
Proof.
  induction names as [|n names IH]; simpl; [reflexivity|].
  destruct (string_dec r n) as [->|Hne].
  - rewrite String.eqb_refl. simpl. exact IH.
  - assert (E : String.eqb n r = false) by (apply String.eqb_neq; congruence).
    rewrite E. simpl. now rewrite IH.
Qed.

Lemma filter_filter {X} (p q : X -> bool) (l : list X) :
  filter q (filter p l) = filter (fun x => p x && q x) l.
Proof.
  induction l as [|x l IH]; simpl; [reflexivity|].
  destruct (p x); simpl; [destruct (q x); simpl; congruence | exact IH].
Qed.

(** The list comprehension of [__init__] removes the delegated names. *)
Lemma filter_not_mem_remove_names (agents : dict V) (names : list string) :
  filter (fun an => negb (mem an agents)) names
  = remove_names (keys agents) names.
Proof.
  revert names. induction agents as [|[k v] agents IH]; intros names; simpl.
  - unfold mem; simpl. induction names; simpl; congruence.
  - rewrite <- IH, filter_names_remove, filter_filter.
    apply filter_ext. intros an. unfold mem; simpl.
    destruct (String.eqb an k); simpl; reflexivity.
Qed.

Lemma not_mem_keys (k : string) (d : dict V) :
  mem k d = false <-> ~ In k (keys d).
Proof.
  rewrite <- mem_In_keys. destruct (mem k d); split; congruence.
Qed.

Lemma truthy_false {X} (l : list X) : truthy l = false <-> l = [].
Proof. destruct l; simpl; split; congruence. Qed.

End DictMore.

Section ItemsMore.

Context {V W : Type}.

(** A binding of a comprehension comes from one of the items. *)
Lemma dict_of_items_binding (f : string -> V -> W)
    (items : list (string * V)) (k : string) (w : W) :
  dict_get k (dict_of_items f items) = Some w ->
  exists v, In (k, v) items /\ w = f k v.
Proof.
  unfold dict_of_items.
  assert (Hgen : forall acc,
             dict_get k
               (fold_left
                  (fun acc kv => dict_set (fst kv) (f (fst kv) (snd kv)) acc)
                  items acc) = Some w ->
             (exists v, In (k, v) items /\ w = f k v)
             \/ dict_get k acc = Some w).
  { induction items as [|[k0 v0] items IH]; simpl; intros acc Hget.
    - now right.
    - destruct (IH _ Hget) as [(v & Hin & Hw)|Hacc].
      + left. eauto.
      + destruct (string_dec k k0) as [->|Hne].
        * rewrite dict_get_set_eq in Hacc. left. exists v0.
          split; [now left | congruence].
        * rewrite dict_get_set_neq in Hacc by exact Hne. now right. }
  intros Hget. destruct (Hgen [] Hget) as [?|Habs]; [assumption|].
  simpl in Habs. discriminate.
Qed.

(** A comprehension whose values may raise: when it returns, it holds
    for each key of the items the value computed for it. *)
Lemma dict_of_items_r_get (g : string -> result W)
    (items : list (string * V)) (acc res : dict W) (k : string) :
  dict_of_items_r (fun name _ => g name) items acc = Ok res ->
  (In k (keys items) -> exists w, g k = Ok w /\ dict_get k res = Some w)
  /\ (~ In k (keys items) -> dict_get k res = dict_get k acc).
Proof.
  revert acc. induction items as [|[k0 v0] items IH]; simpl; intros acc Hres.
  - inversion Hres; subst. split; [tauto | reflexivity].
  - destruct (g k0) as [w0| |] eqn:Hg; try discriminate.
    destruct (IH _ Hres) as [IH1 IH2]. split.
    + intros [->|Hin].
      * destruct (in_dec string_dec k (keys items)) as [Hin|Hnin].
        -- exact (IH1 Hin).
        -- exists w0. split; [exact Hg|].
           rewrite (IH2 Hnin). apply dict_get_set_eq.
      * exact (IH1 Hin).
    + intros Hnin. rewrite IH2 by tauto.
      apply dict_get_set_neq. intros ->. tauto.
Qed.

End ItemsMore.

(** ** Floats *)


Lemma int_lt_float_Finite (n : Z) (q : Q) :
  int_lt_float n (Finite q) = true <-> (inject_Z n < q)%Q.
Proof.
  simpl. rewrite negb_true_iff. split.
  - intros Hle. apply Qnot_le_lt. intros Habs.
    apply Qle_bool_iff in Habs. congruence.
  - intros Hlt. destruct (Qle_bool q (inject_Z n)) eqn:Hle; [|reflexivity].
    apply Qle_bool_iff in Hle. exfalso. exact (Qlt_not_le _ _ Hlt Hle).
Qed.









(** ** PartialMultiAgentEnv *)

Section WrapperFacts.

Context {Obs Action Val Space E A : Type}.
Context {HE : @MultiAgentEnv Obs Action Val Space E}.
Context {HA : @Agent Obs Action Val A}.

Local Abbreviation Partial := (@PartialMultiAgentEnv Obs Val Space E A).
Local Abbreviation ev := (event Obs Action Val).

Lemma copy_agents_Ok (items : list (string * A)) (acc res : dict A)
    (l : list ev) :
  copy_agents items acc = Ok (res, l) ->
  l = map AgentCopy (keys items)
  /\ forall k, In k (keys res) <-> In k (keys acc) \/ In k (keys items).
Proof.
  revert acc l. induction items as [|[name a] items IH]; simpl; intros acc l Hc.
  - inv_M Hc. subst. split; [reflexivity | intros; simpl; tauto].
  - inv_M Hc. inv_M Hm. subst.
    destruct (IH _ _ Hk) as [-> Hkeys]. split; [reflexivity|].
    intros k. rewrite Hkeys, keys_dict_set_In. simpl.
    split; intros Hx; intuition (subst; auto).
Qed.


Lemma act_agents_Ok (agents : dict A)
    (outs : list (string * StepOutcome Obs Val)) (acc : dict Action)
    (agents' : dict A) (acts : dict Action) (l : list ev) :
  act_agents agents outs acc = Ok ((agents', acts), l) ->
  keys agents' = keys agents
  /\ l = map (fun kv => AgentAct (fst kv) (snd kv)) outs
  /\ (forall k, In k (keys outs) -> In k (keys agents))
  /\ (forall k, In k (keys acts) <-> In k (keys acc) \/ In k (keys outs)).
Proof.
  revert agents acc l.
  induction outs as [|[name o] outs IH]; simpl; intros agents acc l Hact.
  - inv_M Hact. inversion Hm; subst. repeat split; intros; simpl in *; tauto.
  - inv_M Hact. inv_M Hm. inv_M Hk. inv_M Hm. subst.
    apply getitem_In in Hm0.
    destruct (IH _ _ _ Hk0) as (Hkeys & -> & Hin & Hacts).
    rewrite keys_dict_set_present in Hkeys by exact Hm0.
    rewrite keys_dict_set_present in Hin by exact Hm0.
    repeat split; auto.
    + intros k [<-|Hk]; auto.
    + rewrite Hacts, keys_dict_set_In. simpl. intuition (subst; auto).
    + rewrite Hacts, keys_dict_set_In. simpl. intuition (subst; auto).
Qed.

(** What a completed construction has done. *)
Lemma init_Ok (env : E) (agents : dict A) (w : Partial) (log : list ev) :
  PartialMultiAgentEnv_init env agents = Ok (w, log) ->
  exists env' agents' r,
    copy env = Ok env'
    /\ copy_agents agents [] = Ok (agents', map AgentCopy (keys agents))
    /\ reset env' = Ok r
    /\ unknown_agents env agents = []
    /\ log = EnvCopy :: map AgentCopy (keys agents) ++ [EnvReset]
    /\ w = {| pm_env := fst r;
              pm_agents := agents';
              pm_agent_names :=
                filter (fun an => negb (mem an agents)) (agent_names env);
              pm_observation_space := observation_space env;
              pm_action_space := action_space env;
              pm_agents_outcome := [] |}.
Proof.
  unfold PartialMultiAgentEnv_init. intros Hinit.
  destruct (bind_keywords _ agents) as [bound| |] eqn:Hb;
    try discriminate.
  apply bind_keywords_Ok in Hb. destruct Hb as [-> _].
  rewrite bind_lift_Ok in Hinit.
  inv_M Hinit. inv_M Hm. inv_M Hk. inv_M Hk0. inv_M Hm1.
  destruct (copy_agents_Ok _ _ _ _ Hm) as [-> _].
  destruct (truthy (unknown_agents env agents)) eqn:Hunk; [discriminate|].
  inv_M Hk. apply truthy_false in Hunk. subst.
  exists x, x0, x1. repeat split; auto.
Qed.






(** What a [reset] that returned has done. *)
Lemma reset_Ok (w w' : Partial) (obs : dict Obs) (log : list ev) :
  PartialMultiAgentEnv_reset w = Ok ((w', obs), log) ->
  exists r cache,
    reset (pm_env w) = Ok r
    /\ agents_outcome (pm_agents w)
         (fst (from_multiagent_step (snd r) [] [] [])) = Ok cache
    /\ w' = {| pm_env := fst r;
               pm_agents := pm_agents w;
               pm_agent_names := pm_agent_names w;
               pm_observation_space := pm_observation_space w;
               pm_action_space := pm_action_space w;
               pm_agents_outcome := cache |}
    /\ obs = dict_of_items (fun _ (outcome : StepOutcome Obs Val) => observation outcome)
               (not_delegated (pm_agents w)
                  (fst (from_multiagent_step (snd r) [] [] [])))
    /\ log = [EnvReset].
Proof.
  unfold PartialMultiAgentEnv_reset. intros Hr.
  monad_inv. eexists _, _. repeat split; eauto.
Qed.

(** What a [step] that returned has done. *)
Lemma step_Ok (w w' : Partial) (action_dict : dict Action)
    (shape : StepReturn Obs Val) (log : list ev) :
  PartialMultiAgentEnv_step w action_dict = Ok ((w', shape), log) ->
  exists agents' computed l1 env' obs rew dn inf cache,
    act_agents (pm_agents w) (pm_agents_outcome w) []
    = Ok ((agents', computed), l1)
    /\ step (pm_env w) (update computed action_dict)
       = Ok (env', (obs, rew, dn, inf))
    /\ agents_outcome agents' (fst (from_multiagent_step obs rew dn inf))
       = Ok cache
    /\ w' = {| pm_env := env';
               pm_agents := agents';
               pm_agent_names := pm_agent_names w;
               pm_observation_space := pm_observation_space w;
               pm_action_space := pm_action_space w;
               pm_agents_outcome := cache |}
    /\ shape = to_multiagent_step
               (dict_of_items (fun _ (outcome : StepOutcome Obs Val) => outcome)
                  (not_delegated agents'
                     (fst (from_multiagent_step obs rew dn inf))))
               (snd (from_multiagent_step obs rew dn inf))
    /\ log = l1 ++ [EnvStep (update computed action_dict)].
Proof.
  unfold PartialMultiAgentEnv_step. intros Hs.
  inv_M Hs. destruct x as [agents' computed]. simpl in Hk.
  match goal with
  | H : bind _ _ = Ok _ |- _ =>
      apply bind_Ok in H;
      destruct H as ([env' [[[obs rew] dn] inf]] & ? & ? & ? & Hrest & ?)
  end.
  cbv beta iota in Hrest.
  monad_inv. eexists _, _, _, _, _, _, _, _, _. repeat split; eauto.
Qed.

Lemma keys_not_delegated {V} (agents : dict A) (outcomes : dict V)
    (k : string) :
  In k (keys (not_delegated agents outcomes)) ->
  ~ In k (keys agents) /\ In k (keys outcomes).
Proof.
  unfold not_delegated, keys. rewrite in_map_iff.
  intros ((k0 & v) & Hfst & Hin). simpl in Hfst. subst k0.
  apply filter_In in Hin. destruct Hin as [Hin Hneg]. simpl in Hneg.
  apply negb_true_iff in Hneg. split.
  - now apply not_mem_keys.
  - apply in_map_iff. exists (k, v). auto.
Qed.

(** The delegated agents and the exposed names of a wrapper never change. *)
Lemma wrapper_steps_invariant (w0 w : Partial) :
  wrapper_steps w0 w ->
  keys (pm_agents w) = keys (pm_agents w0)
  /\ pm_agent_names w = pm_agent_names w0.
Proof.
  induction 1 as [|w w' obs log _ [IHa IHn] Hr
                  |w action_dict w' ret log _ [IHa IHn] Hs].
  - auto.
  - apply reset_Ok in Hr.
    destruct Hr as (r & cache & _ & _ & -> & _). simpl. auto.
  - apply step_Ok in Hs.
    destruct Hs as (agents' & computed & l1 & env' & obs & rew & dn & inf
                    & cache & Hact & _ & _ & -> & _).
    apply act_agents_Ok in Hact. destruct Hact as [Hkeys _].
    simpl. split; congruence.
Qed.

(** C3. A wrapper built from [env] and [agents], in any state it reaches:
    its [agent_names] is the list of [env] minus the delegated names, in
    the order of [env]; no mapping returned by [reset] or [step] has a
    delegated name as a key, but for the key ["__all__"] that [step] puts
    in the done mapping. *)
Theorem delegated_names_hidden (env : E) (agents : dict A)
    (w0 w : Partial) (log0 : list ev) :
  PartialMultiAgentEnv_init env agents = Ok (w0, log0) ->
  wrapper_steps w0 w ->
  agent_names w = remove_names (keys agents) (agent_names env)
  /\ (forall w' obs log,
        PartialMultiAgentEnv_reset w = Ok ((w', obs), log) ->
        forall name, In name (keys agents) -> ~ In name (keys obs))
  /\ (forall action_dict w' obs rew dn inf log,
        PartialMultiAgentEnv_step w action_dict
        = Ok ((w', (obs, rew, dn, inf)), log) ->
        forall name,
          In name (keys agents) ->
          ~ In name (keys obs)
          /\ ~ In name (keys rew)
          /\ ~ In name (keys inf)
          /\ (In name (keys dn) -> name = "__all__")).
Proof.
  intros Hinit Hsteps.
  apply init_Ok in Hinit.
  destruct Hinit as (env' & agents' & r & _ & Hca & _ & _ & _ & ->).
  apply copy_agents_Ok in Hca. destruct Hca as [_ Hdelegated].
  apply wrapper_steps_invariant in Hsteps. simpl in Hsteps.
  destruct Hsteps as [Ha Hn].
  assert (Hdel : forall name,
             In name (keys agents) -> In name (keys (pm_agents w))).
  { intros name Hin. rewrite Ha. apply Hdelegated. now right. }
  split; [|split].
  - simpl. rewrite Hn. apply filter_not_mem_remove_names.
  - intros w' obs log Hr name Hin Hobs.
    apply reset_Ok in Hr. destruct Hr as (r' & cache & _ & _ & _ & -> & _).
    apply dict_of_items_keys, keys_not_delegated in Hobs.
    destruct Hobs as [Hnot _]. auto.
  - intros action_dict w' obs rew dn inf log Hs name Hin.
    apply step_Ok in Hs.
    destruct Hs as (agents1 & computed & l1 & env1 & obs1 & rew1 & dn1 & inf1
                    & cache & Hact & _ & _ & -> & Hret & _).
    apply act_agents_Ok in Hact. destruct Hact as [Hkeys _].
    apply Hdel in Hin. rewrite <- Hkeys in Hin.
    unfold to_multiagent_step in Hret. inversion Hret; subst; clear Hret.
    assert (Hmid : forall k,
               In k (keys (dict_of_items
                             (fun (_ : string) (o : StepOutcome Obs Val) => o)
                             (not_delegated agents1
                                (fst (from_multiagent_step obs1 rew1 dn1 inf1)))))
               -> ~ In k (keys agents1)).
    { intros k Hk. apply dict_of_items_keys, keys_not_delegated in Hk. tauto. }
    repeat split.
    + intros Hk. apply dict_of_items_keys in Hk. exact (Hmid _ Hk Hin).
    + intros Hk. apply dict_of_items_keys in Hk. exact (Hmid _ Hk Hin).
    + intros Hk. apply dict_of_items_keys in Hk. exact (Hmid _ Hk Hin).
    + intros Hk. apply keys_dict_set_In in Hk.
      destruct Hk as [Hk|Hk]; [exact Hk|].
      apply dict_of_items_keys in Hk. destruct (Hmid _ Hk Hin).
Qed.

(** C9, as the code has it.  A completed construction has copied the base
    environment, copied every agent, and reset the copy once (the wrapper
    keeps the environment as that reset left it), but the observations of
    that reset are dropped: the cache of outcomes is empty.  The cache is
    filled by the first [reset] of the wrapper, which stores for every
    delegated name an outcome with one of the observations the base
    environment returned under that name, no reward, [done] false and no
    info. *)
Theorem construction_leaves_cache_empty (env : E) (agents : dict A)
    (w : Partial) (log : list ev) :
  PartialMultiAgentEnv_init env agents = Ok (w, log) ->
  (exists env' r,
      copy env = Ok env' /\ reset env' = Ok r /\ pm_env w = fst r)
  /\ log = EnvCopy :: map AgentCopy (keys agents) ++ [EnvReset]
  /\ pm_agents_outcome w = []
  /\ forall w' obs l,
       PartialMultiAgentEnv_reset w = Ok ((w', obs), l) ->
       exists raw,
         reset (pm_env w) = Ok raw
         /\ forall name,
              In name (keys agents) ->
              exists o,
                In (name, o) (snd raw)
                /\ dict_get name (pm_agents_outcome w')
                   = Some (mkStepOutcome o None false []).
Proof.
  intros Hinit. apply init_Ok in Hinit.
  destruct Hinit as (env' & agents' & r & Hcopy & Hca & Hreset & _ & -> & ->).
  simpl. split; [eauto|]. split; [reflexivity|]. split; [reflexivity|].
  intros w' obs l Hr. apply reset_Ok in Hr. simpl in Hr.
  destruct Hr as (raw & cache & Hraw & Hcache & -> & _ & _).
  exists raw. split; [exact Hraw|]. intros name Hin. simpl.
  apply copy_agents_Ok in Hca. destruct Hca as [_ Hkeys].
  assert (Hin' : In name (keys agents')) by (apply Hkeys; now right).
  unfold agents_outcome in Hcache.
  destruct (dict_of_items_r_get
              (fun name =>
                 getitem name (fst (from_multiagent_step (snd raw) [] [] [])))
              agents' [] cache name Hcache) as [Hfound _].
  destruct (Hfound Hin') as (o' & Hget & Hcached).
  apply getitem_Ok in Hget. unfold from_multiagent_step in Hget; simpl in Hget.
  apply dict_of_items_binding in Hget. destruct Hget as (o & Hino & ->).
  exists o. split; [exact Hino | exact Hcached].
Qed.

(** C10. In [step], the mapping handed to the base environment is the
    actions computed by the delegated agents updated with the mapping of
    the caller: every name of the caller's mapping, delegated or not, gets
    the caller's action, and the action a delegated agent computed for
    such a name is dropped; the other names keep the computed action. *)
Theorem caller_actions_take_precedence (w : Partial)
    (action_dict computed : dict Action) (agents' : dict A) (l1 : list ev) :
  dict_wf action_dict ->
  act_agents (pm_agents w) (pm_agents_outcome w) []
  = Ok ((agents', computed), l1) ->
  exists full_action_dict,
    (forall name action,
        dict_get name action_dict = Some action ->
        dict_get name full_action_dict = Some action)
    /\ (forall name,
          dict_get name action_dict = None ->
          dict_get name full_action_dict = dict_get name computed)
    /\ (forall e,
          step (pm_env w) full_action_dict = Raise e ->
          PartialMultiAgentEnv_step w action_dict = Raise e)
    /\ (forall r log,
          PartialMultiAgentEnv_step w action_dict = Ok (r, log) ->
          exists env' shape,
            step (pm_env w) full_action_dict = Ok (env', shape)
            /\ pm_env (fst r) = env'
            /\ log = l1 ++ [EnvStep full_action_dict]).
Proof.
  intros Hwf Hact. exists (update computed action_dict).
  split; [|split; [|split]].
  - intros name action Hget. now rewrite (update_get _ _ _ Hwf), Hget.
  - intros name Hget. now rewrite (update_get _ _ _ Hwf), Hget.
  - intros e He. unfold PartialMultiAgentEnv_step.
    rewrite Hact; simpl. rewrite He. reflexivity.
  - intros [w' shape] log Hs. apply step_Ok in Hs.
    destruct Hs as (agents1 & computed1 & l & env1 & obs & rew & dn & inf
                    & cache & Hact1 & Hstep & _ & -> & _ & ->).
    rewrite Hact in Hact1. inversion Hact1; subst.
    eexists _, _. split; [exact Hstep|]. split; reflexivity.
Qed.

(** ** SingleAgentEnv *)

(** The four mappings of [to_multiagent_step] have the keys of the
    outcomes, and the done mapping the key ["__all__"] besides. *)
Lemma to_multiagent_step_lookup (outcomes : dict (StepOutcome Obs Val))
    (flag : bool) (an : string) :
  In an (keys outcomes) ->
  let '(obs, rew, dn, inf) := to_multiagent_step outcomes flag in
  (exists o, dict_get an obs = Some o)
  /\ (exists r, dict_get an rew = Some r)
  /\ (exists d, dict_get an dn = Some d)
  /\ dict_get "__all__" dn = Some flag.
Proof.
  intros Hin. unfold to_multiagent_step.
  assert (Hfield : forall W (g : StepOutcome Obs Val -> W),
             exists x,
               dict_get an (dict_of_items (fun _ outcome => g outcome) outcomes)
               = Some x).
  { intros W g.
    destruct (dict_get an (dict_of_items (fun _ outcome => g outcome) outcomes))
      as [x|] eqn:Hget; [eauto|].
    exfalso. revert Hget. apply dict_get_In_keys.
    apply dict_of_items_keys. exact Hin. }
  repeat split; try apply Hfield.
  - destruct (string_dec an "__all__") as [->|Hne].
    + rewrite dict_get_set_eq. eauto.
    + rewrite dict_get_set_neq by exact Hne. apply Hfield.
  - apply dict_get_set_eq.
Qed.

(** C7. When the step of the wrapped environment returns and its
    observations include the single agent, the adapter's [step] returns
    with a done flag that is the disjunction of the agent's own flag and
    of the ["__all__"] flag of that result: true as soon as one of them
    is, false when both are. *)
Theorem single_agent_done_is_or (self : @SingleAgentEnv Obs Val Space E A)
    (action : Action) (w' : Partial) (obs : dict Obs)
    (rew : dict (option Z)) (dn : dict bool) (inf : dict (Info Val)) :
  let an := sa_agent_name self in
  step (sa_env self) [(an, action)] = Ok (w', (obs, rew, dn, inf)) ->
  In an (keys obs) ->
  exists o r own all self',
    dict_get an dn = Some own
    /\ dict_get "__all__" dn = Some all
    /\ SingleAgentEnv_step self action
       = Ok ((self', (o, r, own || all, Some (get_default an [] inf))),
             [EnvStep [(an, action)]])
    /\ sa_env self' = w'
    /\ (own = true -> all = false -> own || all = true)
    /\ (own = false -> all = true -> own || all = true)
    /\ (own = false -> all = false -> own || all = false).
Proof.
  intros an Hstep Hin.
  pose proof Hstep as Hs. simpl in Hs. apply forget_Ok in Hs.
  destruct Hs as [l Hs]. apply step_Ok in Hs.
  destruct Hs as (agents1 & computed1 & l1 & env1 & obs1 & rew1 & dn1 & inf1
                  & cache & _ & _ & _ & _ & Hshape & _).
  assert (Hk : In an (keys (dict_of_items
                              (fun (_ : string) (o : StepOutcome Obs Val) => o)
                              (not_delegated agents1
                                 (fst (from_multiagent_step obs1 rew1 dn1 inf1)))))).
  { unfold to_multiagent_step in Hshape. inversion Hshape; subst.
    apply dict_of_items_keys in Hin. exact Hin. }
  pose proof (to_multiagent_step_lookup _
                (snd (from_multiagent_step obs1 rew1 dn1 inf1)) an Hk) as Hl.
  rewrite <- Hshape in Hl.
  destruct Hl as ((o & Ho) & (r & Hr) & (own & Hown) & Hall).
  exists o, r, own, (snd (from_multiagent_step obs1 rew1 dn1 inf1)).
  eexists. split; [exact Hown|]. split; [exact Hall|].
  split; [|split; [|repeat split; intros Ha Hb; rewrite Ha, Hb; reflexivity]].
  - unfold SingleAgentEnv_step. fold an. cbv zeta.
    rewrite Hstep. simpl. unfold getitem.
    rewrite Ho, Hr, Hown, Hall. simpl. reflexivity.
  - reflexivity.
Qed.

(** Narrowing a wrapper that does not expose exactly one name: the test
    of the [assert] fails, and building its message raises. *)
Lemma as_single_agent_wrong_count (w : Partial) :
  List.length (agent_names w) <> 1%nat ->
  as_single_agent w = Raise AttributeError.
Proof.
  intros Hlen. unfold as_single_agent, SingleAgentEnv_init.
  destruct (Nat.eqb (List.length (agent_names w)) 1) eqn:Hone.
  - apply Nat.eqb_eq in Hone. contradiction.
  - reflexivity.
Qed.

(** Narrowing a wrapper that exposes exactly one name returns, when the
    wrapper can be copied and the copy reset. *)
Lemma as_single_agent_one (w c : Partial) (r : Partial * dict Obs)
    (an : string) :
  agent_names w = [an] ->
  copy w = Ok c ->
  reset c = Ok r ->
  as_single_agent w
  = Ok ({| sa_env := w;
           sa_observation_space := observation_space w;
           sa_action_space := action_space w;
           sa_agent_name := an |}, [EnvCopy; EnvReset]).
Proof.
  intros Hnames Hcopy Hreset. unfold as_single_agent, SingleAgentEnv_init.
  rewrite Hnames. unfold bind at 1. simpl assert_. cbv iota beta.
  unfold bind at 1. rewrite Hcopy. unfold call at 1. cbv iota beta.
  unfold bind at 1. rewrite Hreset. reflexivity.
Qed.

End WrapperFacts.

(** ** EnvironmentRunner: one episode *)

Section RunnerFacts.

Context {Obs Action Val Space G E A : Type}.
Context {HG : @GymEnv Obs Action Val G}.
Context {HE : @MultiAgentEnv Obs Action Val Space E}.
Context {HA : @Agent Obs Action Val A}.

Local Abbreviation ev := (event Obs Action Val).
Local Abbreviation outcome := (StepOutcome Obs Val).
Local Abbreviation state := (@loop_state Obs Val G E A).
Local Abbreviation act_event :=
  (fun kv : string * outcome => @AgentAct Obs Action Val (fst kv) (snd kv)).

Lemma count_steps_app (l1 l2 : list ev) :
  count_steps (l1 ++ l2) = (count_steps l1 + count_steps l2)%nat.
Proof. unfold count_steps. now rewrite filter_app, length_app. Qed.

Lemma count_steps_acts (outs : list (string * outcome)) :
  count_steps (map act_event outs) = 0%nat.
Proof. induction outs as [|[k o] outs IH]; simpl; auto. Qed.

Lemma count_steps_resets (names : list string) :
  count_steps (map (@AgentReset Obs Action Val) names) = 0%nat.
Proof. induction names; simpl; auto. Qed.

Lemma In_wf_get {V} (d : dict V) (k : string) (v : V) :
  dict_wf d -> In (k, v) d -> dict_get k d = Some v.
Proof.
  unfold dict_wf. induction d as [|[k0 v0] d IH]; simpl; intros Hwf Hin.
  - destruct Hin.
  - inversion Hwf as [|? ? Hni Hnd]; subst.
    destruct Hin as [Heq|Hin].
    + inversion Heq; subst. now rewrite String.eqb_refl.
    + destruct (String.eqb k k0) eqn:Hk.
      * apply String.eqb_eq in Hk. subst k0. exfalso. apply Hni.
        apply in_map_iff. exists (k, v). auto.
      * auto.
Qed.

Lemma reset_agents_returns (todo : list (string * A)) (agents : dict A) :
  agents_return (A := A) ->
  (forall k, In k (keys todo) -> In k (keys agents)) ->
  exists agents',
    reset_agents todo agents = Ok (agents', map AgentReset (keys todo))
    /\ keys agents' = keys agents.
Proof.
  intros [_ Hreset]. revert agents.
  induction todo as [|[name a] todo IH]; simpl; intros agents Hin.
  - eexists. split; reflexivity.
  - destruct (Hreset a) as [a' Ha]. rewrite Ha; simpl.
    assert (Hname : In name (keys agents)) by auto.
    destruct (IH (dict_set name a' agents)) as (agents' & Hr & Hkeys).
    { intros k Hk. rewrite keys_dict_set_present by exact Hname. auto. }
    exists agents'. rewrite Hr. split; [reflexivity|].
    rewrite Hkeys. now apply keys_dict_set_present.
Qed.











(** ** EnvironmentRunner: what an episode that returned has done *)

Lemma reset_agents_log (todo : list (string * A)) (agents agents' : dict A)
    (l : list ev) :
  reset_agents todo agents = Ok (agents', l) ->
  l = map AgentReset (keys todo).
Proof.
  revert agents l. induction todo as [|[name a] todo IH]; simpl;
    intros agents l Hr.
  - monad_inv. reflexivity.
  - apply bind_Ok in Hr. destruct Hr as (a' & l1 & l2 & Hc & Hrest & ->).
    apply call_Ok in Hc. destruct Hc as [_ ->].
    apply IH in Hrest. now subst.
Qed.

Lemma reset_agents_Ok (todo : list (string * A)) (agents agents' : dict A)
    (l : list ev) :
  reset_agents todo agents = Ok (agents', l) ->
  (forall k, In k (keys todo) -> In k (keys agents)) ->
  keys agents' = keys agents.
Proof.
  revert agents l. induction todo as [|[name a] todo IH]; simpl;
    intros agents l Hr Hin.
  - monad_inv. reflexivity.
  - monad_inv.
    assert (Hname : In name (keys agents)) by auto.
    match goal with
    | H : reset_agents _ _ = Ok _ |- _ => apply IH in H
    end.
    + now rewrite keys_dict_set_present in * by exact Hname.
    + intros k Hk. rewrite keys_dict_set_present by exact Hname. auto.
Qed.

Lemma accumulate_Ok (outs : list (string * outcome)) (sums sums' : dict Z)
    (l : list ev) :
  accumulate outs sums = Ok (sums', l) ->
  (dict_wf sums -> dict_wf sums')
  /\ forall k, In k (keys sums') <-> In k (keys sums) \/ In k (keys outs).
Proof.
  revert sums. induction outs as [|[name o] outs IH]; simpl; intros sums Hacc.
  - monad_inv. split; [auto | intros; tauto].
  - destruct (reward o) as [r|]; [|discriminate].
    apply IH in Hacc. destruct Hacc as [Hwf Hkeys]. split.
    + intros Hs. apply Hwf. now apply dict_set_wf.
    + intros k. rewrite Hkeys, keys_dict_set_In. simpl.
      split; intros Hx; intuition (subst; auto).
Qed.

Lemma runner_reset_Ok (env env' : runner_env G E) (outs : dict outcome)
    (d : bool) (l : list ev) :
  runner_reset env = Ok ((env', outs, d), l) ->
  is_gym env' = is_gym env /\ (is_gym env = true -> In san (keys outs)).
Proof.
  destruct env as [g|e]; simpl; intros Hr.
  - monad_inv. simpl. split; [reflexivity | intros _; now left].
  - match goal with
    | H : bind _ _ = Ok _ |- _ =>
        apply bind_Ok in H; destruct H as ([e' obs] & ? & ? & ? & Hrest & ?)
    end.
    cbv beta iota in Hrest. monad_inv. simpl. split; [reflexivity|discriminate].
Qed.

Lemma runner_step_Ok (env env' : runner_env G E) (actions : dict Action)
    (outs : dict outcome) (d : bool) (l : list ev) :
  runner_step env actions = Ok ((env', outs, d), l) ->
  is_gym env' = is_gym env /\ (is_gym env = true -> In san (keys outs)).
Proof.
  destruct env as [g|e]; simpl; intros Hr.
  - apply bind_Ok in Hr. destruct Hr as (action & ? & ? & _ & Hrest & _).
    apply bind_Ok in Hrest.
    destruct Hrest as ([g' [[[o rw] dn] i]] & ? & ? & _ & Hrest & _).
    cbv beta iota in Hrest. monad_inv. simpl.
    split; [reflexivity | intros _; now left].
  - apply bind_Ok in Hr.
    destruct Hr as ([e' [[[obs rew] dn] inf]] & ? & ? & _ & Hrest & _).
    cbv beta iota in Hrest. monad_inv. simpl. split; [reflexivity|discriminate].
Qed.

Lemma loop_body_sound (names : list string) (gym : bool) (s s' : state)
    (l : list ev) :
  loop_body s = Ok (s', l) ->
  cycle_sound names gym s ->
  cycle_sound names gym s'.
Proof.
  unfold loop_body. intros Hbody (Hwf & Hsums & Hkeys & Hgym & Hsan).
  apply bind_Ok in Hbody.
  destruct Hbody as ([agents' actions] & ? & ? & Hact & Hrest & _).
  cbv beta iota in Hrest. apply bind_Ok in Hrest.
  destruct Hrest as ([[env' outs] d] & ? & ? & Hstep & Hrest & _).
  cbv beta iota in Hrest. apply bind_Ok in Hrest.
  destruct Hrest as (sums & ? & ? & Hacc & Hrest & _).
  apply ret_Ok in Hrest. destruct Hrest as [<- _].
  apply act_agents_Ok in Hact. destruct Hact as (Hkeys' & _ & Hcover & _).
  apply runner_step_Ok in Hstep. destruct Hstep as [Hgym' Hsan'].
  apply accumulate_Ok in Hacc. destruct Hacc as [Hwf' Hsums'].
  unfold cycle_sound; simpl. repeat split.
  - auto.
  - intros k Hk. apply Hsums' in Hk. destruct Hk as [Hk|Hk]; [|now right].
    left. destruct (Hsums k Hk) as [Hn|Ho]; [exact Hn|].
    rewrite <- Hkeys. auto.
  - congruence.
  - congruence.
  - intros ->. apply Hsan'. congruence.
Qed.

Lemma run_loop_sound (names : list string) (gym : bool)
    (limit : pyfloat) (fuel : nat) :
  forall (s s' : state) (l : list ev),
    run_loop fuel limit s = Ok (s', l) ->
    cycle_sound names gym s ->
    cycle_sound names gym s'.
Proof.
  induction fuel as [|fuel IH]; simpl; intros s s' l Hloop Hsound.
  - destruct (loop_test limit s); [discriminate|].
    apply ret_Ok in Hloop. destruct Hloop as [<- _]. exact Hsound.
  - destruct (loop_test limit s).
    + apply bind_Ok in Hloop.
      destruct Hloop as (s1 & ? & ? & Hbody & Hrest & _).
      eapply IH; [exact Hrest|].
      eapply loop_body_sound; eauto.
    + apply ret_Ok in Hloop. destruct Hloop as [<- _]. exact Hsound.
Qed.

(** Once the keywords are bound, lines 162-165. *)
Lemma local_agents_bound (single_agent : list A) (agents : dict A) :
  mem "self" agents = false ->
  local_agents single_agent agents
  = if Nat.eqb (List.length single_agent) 1 && negb (truthy agents) then
      Ok (match single_agent with
          | agent :: _ => [(san, agent)]
          | [] => []
          end)
    else if truthy single_agent || negb (truthy agents) then
      Raise (ValueError
               (Text "Either provide 1 unnamed agent or several named agents"))
    else Ok agents.
Proof.
  intros Hself. unfold local_agents.
  rewrite bind_keywords_free; [reflexivity|]. simpl. now rewrite Hself.
Qed.

Lemma local_agents_keyword (single_agent : list A) (agents : dict A) :
  mem "self" agents = true ->
  local_agents single_agent agents = Raise TypeError.
Proof.
  intros Hself. unfold local_agents.
  rewrite bind_keywords_taken; [reflexivity|]. simpl. now rewrite Hself.
Qed.

Lemma local_agents_Ok (single_agent : list A) (agents local : dict A) :
  local_agents single_agent agents = Ok local ->
  mem "self" agents = false.
Proof.
  intros Hl. destruct (mem "self" agents) eqn:Hself; [|reflexivity].
  rewrite (local_agents_keyword _ _ Hself) in Hl. discriminate.
Qed.

Lemma local_agents_sums (single_agent : list A) (agents local : dict A) :
  local_agents single_agent agents = Ok local ->
  forall k, In k (keys local) <-> In k (keys (initial_sums agents)).
Proof.
  intros Hl. pose proof (local_agents_Ok _ _ _ Hl) as Hself.
  rewrite (local_agents_bound _ _ Hself) in Hl. revert Hl.
  unfold initial_sums. intros Hl k.
  destruct (Nat.eqb (List.length single_agent) 1 && negb (truthy agents))
    eqn:Hsingle.
  - apply andb_true_iff in Hsingle. destruct Hsingle as [Hlen Hnone].
    apply negb_true_iff in Hnone. rewrite Hnone.
    destruct single_agent as [|a rest]; [discriminate|].
    inversion Hl; subst. simpl. tauto.
  - destruct (truthy single_agent || negb (truthy agents)) eqn:Hbad;
      [discriminate|].
    apply orb_false_iff in Hbad. destruct Hbad as [_ Hsome].
    apply negb_false_iff in Hsome. rewrite Hsome.
    inversion Hl; subst. symmetry. apply dict_of_items_keys.
Qed.

(** What an episode that returned leaves behind. *)
Lemma run_once_Ok (fuel : nat) (self self' : EnvironmentRunner G E)
    (single_agent single' : list A) (agents agents' : dict A)
    (rewards : dict Z) (log : list ev) :
  _run_once fuel self single_agent agents
  = Ok ((rewards, self', single', agents'), log) ->
  dict_wf rewards
  /\ incl (keys rewards) (keys (initial_sums agents))
  /\ keys agents' = keys agents
  /\ num_repetitions self' = num_repetitions self
  /\ is_gym (er_env self') = is_gym (er_env self)
  /\ (is_gym (er_env self) = true -> In san (keys (initial_sums agents))).
Proof.
  unfold _run_once. intros Hrun.
  apply bind_Ok in Hrun. destruct Hrun as (local & ? & ? & Hlocal & Hrun & _).
  apply lift_Ok in Hlocal. destruct Hlocal as [Hlocal _].
  apply bind_Ok in Hrun. destruct Hrun as (local1 & ? & ? & Hreset & Hrun & _).
  apply bind_Ok in Hrun.
  destruct Hrun as ([[env outs] d] & ? & ? & Hstart & Hrun & _).
  cbv beta iota in Hrun.
  apply bind_Ok in Hrun. destruct Hrun as (s & ? & ? & Hloop & Hrun & _).
  apply bind_Ok in Hrun.
  destruct Hrun as ([final_agents final_actions] & ? & ? & Hfinal & Hrun & _).
  apply ret_Ok in Hrun. destruct Hrun as [Hrun _].
  apply reset_agents_Ok in Hreset; [|auto].
  apply runner_reset_Ok in Hstart. destruct Hstart as [Hgym Hsan].
  apply (run_loop_sound (keys local) (is_gym (er_env self))) in Hloop.
  2:{ unfold cycle_sound; simpl. repeat split; auto.
      - constructor.
      - intros k []. }
  destruct Hloop as (Hwf & Hsums & Hkeys & Hgym' & Hsan').
  apply act_agents_Ok in Hfinal.
  destruct Hfinal as (Hfkeys & _ & Hcover & _).
  pose proof (local_agents_sums _ _ _ Hlocal) as Hnames.
  inversion Hrun; subst; clear Hrun. simpl.
  split; [exact Hwf|]. split; [|split; [|split; [reflexivity|split]]].
  - intros k Hk. apply Hnames.
    destruct (Hsums k Hk) as [Hn|Ho]; [exact Hn|].
    rewrite <- Hkeys. auto.
  - destruct (Nat.eqb (List.length single_agent) 1 && negb (truthy agents))
      eqn:Hsingle; [reflexivity|].
    rewrite (local_agents_bound _ _ (local_agents_Ok _ _ _ Hlocal)) in Hlocal.
    rewrite Hsingle in Hlocal.
    destruct (truthy single_agent || negb (truthy agents)); [discriminate|].
    inversion Hlocal; subst. simpl. congruence.
  - exact Hgym'.
  - intros Hg. apply Hnames. rewrite <- Hkeys. apply Hcover. auto.
Qed.

(** ** EnvironmentRunner: repetitions and averages *)




Lemma initial_sums_wf (agents : dict A) : dict_wf (initial_sums agents).
Proof.
  unfold initial_sums. destruct (truthy agents).
  - apply dict_of_items_wf.
  - constructor; [simpl; tauto | constructor].
Qed.

Lemma initial_sums_zero (agents : dict A) (name : string) :
  In name (keys (initial_sums agents)) ->
  dict_get name (initial_sums agents) = Some 0.
Proof.
  unfold initial_sums. destruct (truthy agents).
  - intros Hin. apply dict_get_In_keys in Hin.
    destruct (dict_get name (dict_of_items (fun _ (_ : A) => 0) agents))
      as [v|] eqn:Hget; [|congruence].
    apply dict_of_items_binding in Hget. destruct Hget as (_ & _ & ->).
    reflexivity.
  - simpl. intros [<-|[]]. reflexivity.
Qed.


(** The comprehension that divides the sums. *)
Lemma mean_rewards_returns (k : Z) (sums : dict Z) (means : dict Q) :
  k <> 0 ->
  fits_double k = true ->
  NoDup (keys means ++ keys sums) ->
  dict_of_items_r (fun _ value => mean k value) sums means
  = Ok (means ++ map (fun kv => (fst kv, float_div (snd kv) k)) sums).
Proof.
  intros Hk Hfits. revert means.
  induction sums as [|[name v] sums IH]; simpl; intros means Hnd.
  - now rewrite app_nil_r.
  - unfold mean at 1. rewrite Hfits. cbn [negb].
    destruct (k =? 0) eqn:Hk0; [apply Z.eqb_eq in Hk0; lia|].
    assert (Hfresh : ~ In name (keys means)).
    { intros Hin. apply NoDup_remove_2 in Hnd. apply Hnd.
      apply in_or_app. now left. }
    rewrite dict_set_new by exact Hfresh. rewrite IH.
    + now rewrite <- app_assoc.
    + rewrite keys_app. simpl. rewrite <- app_assoc. exact Hnd.
Qed.







End RunnerFacts.

(** * The statements on the concrete game *)

Import Game.

Lemma from_multiagent_step_outcomes_witness :
  dict_wf obs0
  /\ keys (fst (from_multiagent_step obs0 reward0 done0 info0))
     = ["player_0"; "player_1"]
  /\ dict_get "player_1" (fst (from_multiagent_step obs0 reward0 done0 info0))
     = Some (mkStepOutcome 9%nat None true [])
  /\ snd (from_multiagent_step obs0 reward0 done0 info0) = false.
Proof.
  assert (Hwf : dict_wf obs0).
  { unfold dict_wf; simpl. repeat constructor; simpl; intuition discriminate. }
  split; [exact Hwf|].
  destruct (from_multiagent_step_outcomes obs0 reward0 done0 info0 Hwf)
    as (Hkeys & Hout & Hall).
  split; [exact Hkeys|]. split; [|exact Hall].
  exact (Hout "player_1" 9%nat eq_refl).
Defined.

Lemma multiagent_step_roundtrip_witness :
  dict_wf obs0
  /\ let '(obs', reward', done', info') :=
       to_multiagent_step
         (fst (from_multiagent_step obs0 reward0 done0 info0)) false in
     obs' = obs0
     /\ dict_get "__all__" done' = Some false
     /\ forall name,
          In name (keys obs0) ->
          dict_get name reward' = Some (get_default name None reward0)
          /\ dict_get name info' = Some (get_default name [] info0)
          /\ (name <> "__all__" ->
              dict_get name done' = Some (get_default name false done0)).
Proof.
  assert (Hwf : dict_wf obs0).
  { unfold dict_wf; simpl. repeat constructor; simpl; intuition discriminate. }
  split; [exact Hwf|].
  exact (multiagent_step_roundtrip obs0 reward0 done0 info0 Hwf).
Defined.



Lemma delegated_names_hidden_witness :
  PartialMultiAgentEnv_init (mkDuel 0) delegate
  = Ok (wrapped, [EnvCopy; AgentCopy "player_1"; EnvReset])
  /\ wrapper_steps wrapped wrapped_ready
  /\ agent_names wrapped_ready = ["player_0"]
  /\ (forall w' obs log,
        PartialMultiAgentEnv_reset wrapped_ready = Ok ((w', obs), log) ->
        ~ In "player_1" (keys obs))
  /\ (forall action_dict w' obs rew dn inf log,
        PartialMultiAgentEnv_step wrapped_ready action_dict
        = Ok ((w', (obs, rew, dn, inf)), log) ->
        ~ In "player_1" (keys obs) /\ ~ In "player_1" (keys rew)).
Proof.
  assert (Hinit : PartialMultiAgentEnv_init (mkDuel 0) delegate
                  = Ok (wrapped, [EnvCopy; AgentCopy "player_1"; EnvReset]))
    by reflexivity.
  assert (Hsteps : wrapper_steps wrapped wrapped_ready).
  { eapply steps_reset; [apply steps_none | reflexivity]. }
  split; [exact Hinit|]. split; [exact Hsteps|].
  destruct (delegated_names_hidden (mkDuel 0) delegate wrapped wrapped_ready
              _ Hinit Hsteps) as (Hnames & Hreset & Hstep).
  split; [exact Hnames|]. split.
  - intros w' obs log Hr. apply (Hreset w' obs log Hr). now left.
  - intros action_dict w' obs rew dn inf log Hs.
    destruct (Hstep action_dict w' obs rew dn inf log Hs "player_1")
      as (Ho & Hr & _); [now left | auto].
Defined.

(** C9 as stated fails: after [duel.with_agent(player_1=constant)] the
    cache holds no outcome for [player_1]. *)
Lemma construction_caches_nothing :
  ~ (forall w log,
        PartialMultiAgentEnv_init (mkDuel 0) delegate = Ok (w, log) ->
        exists o,
          dict_get "player_1" (pm_agents_outcome w) = Some o
          /\ observation o = 0%nat).
Proof.
  intros Hclaim.
  destruct (Hclaim wrapped [EnvCopy; AgentCopy "player_1"; EnvReset] eq_refl)
    as (o & Hget & _).
  discriminate Hget.
Qed.

Lemma construction_leaves_cache_empty_witness :
  PartialMultiAgentEnv_init (mkDuel 0) delegate
  = Ok (wrapped, [EnvCopy; AgentCopy "player_1"; EnvReset])
  /\ pm_agents_outcome wrapped = []
  /\ forall w' obs l,
       PartialMultiAgentEnv_reset wrapped = Ok ((w', obs), l) ->
       exists o,
         dict_get "player_1" (pm_agents_outcome w')
         = Some (mkStepOutcome o None false []).
Proof.
  assert (Hinit : PartialMultiAgentEnv_init (mkDuel 0) delegate
                  = Ok (wrapped, [EnvCopy; AgentCopy "player_1"; EnvReset]))
    by reflexivity.
  split; [exact Hinit|].
  destruct (construction_leaves_cache_empty (mkDuel 0) delegate wrapped _ Hinit)
    as (_ & _ & Hempty & Hreset).
  split; [exact Hempty|].
  intros w' obs l Hr. destruct (Hreset w' obs l Hr) as (raw & _ & Hcached).
  destruct (Hcached "player_1") as (o & _ & Hget); [now left|].
  exists o. exact Hget.
Defined.

Lemma caller_actions_take_precedence_witness :
  dict_wf [("player_0", 2); ("player_1", 5)]
  /\ act_agents (pm_agents wrapped_ready) (pm_agents_outcome wrapped_ready) []
     = Ok ((delegate, [("player_1", 0)]),
           [AgentAct "player_1" (mkStepOutcome 0%nat None false [])])
  /\ exists full_action_dict,
       dict_get "player_1" full_action_dict = Some 5
       /\ dict_get "player_0" full_action_dict = Some 2
       /\ forall r log,
            PartialMultiAgentEnv_step wrapped_ready
              [("player_0", 2); ("player_1", 5)] = Ok (r, log) ->
            log = [AgentAct "player_1" (mkStepOutcome 0%nat None false []);
                   EnvStep full_action_dict].
Proof.
  assert (Hwf : dict_wf [("player_0", 2); ("player_1", 5)]).
  { unfold dict_wf; simpl. repeat constructor; simpl; intuition discriminate. }
  assert (Hact : act_agents (pm_agents wrapped_ready)
                   (pm_agents_outcome wrapped_ready) []
                 = Ok ((delegate, [("player_1", 0)]),
                       [AgentAct "player_1"
                          (mkStepOutcome 0%nat None false [])]))
    by reflexivity.
  split; [exact Hwf|]. split; [exact Hact|].
  destruct (caller_actions_take_precedence wrapped_ready
              [("player_0", 2); ("player_1", 5)] _ _ _ Hwf Hact)
    as (full & Hcaller & _ & _ & Hlog).
  exists full. split; [apply Hcaller; reflexivity|].
  split; [apply Hcaller; reflexivity|].
  intros r log Hs. destruct (Hlog r log Hs) as (env' & shape & _ & _ & ->).
  reflexivity.
Defined.

Lemma single_agent_done_is_or_witness :
  step (sa_env narrowed) [(sa_agent_name narrowed, 2)]
  = Ok ({| pm_env := mkDuel 1;
           pm_agents := delegate;
           pm_agent_names := ["player_0"];
           pm_observation_space := tt;
           pm_action_space := tt;
           pm_agents_outcome :=
             [("player_1", mkStepOutcome 1%nat (Some 1) true [])] |},
        ([("player_0", 1%nat)], [("player_0", Some 0)],
         [("player_0", true); ("__all__", true)], [("player_0", [])]))
  /\ In (sa_agent_name narrowed) (keys [("player_0", 1%nat)])
  /\ exists o r own all self',
       SingleAgentEnv_step narrowed 2
       = Ok ((self', (o, r, own || all, Some [])),
             [EnvStep [("player_0", 2)]])
       /\ own || all = true.
Proof.
  assert (Hstep : step (sa_env narrowed) [(sa_agent_name narrowed, 2)]
                  = Ok ({| pm_env := mkDuel 1;
                           pm_agents := delegate;
                           pm_agent_names := ["player_0"];
                           pm_observation_space := tt;
                           pm_action_space := tt;
                           pm_agents_outcome :=
                             [("player_1",
                               mkStepOutcome 1%nat (Some 1) true [])] |},
                        ([("player_0", 1%nat)], [("player_0", Some 0)],
                         [("player_0", true); ("__all__", true)],
                         [("player_0", [])])))
    by reflexivity.
  assert (Hin : In (sa_agent_name narrowed) (keys [("player_0", 1%nat)]))
    by (now left).
  split; [exact Hstep|]. split; [exact Hin|].
  destruct (single_agent_done_is_or narrowed 2 _ _ _ _ _ Hstep Hin)
    as (o & r & own & all & self' & Hown & Hall & Hs & _).
  exists o, r, own, all, self'. split; [exact Hs|].
  simpl in Hown, Hall. inversion Hown. inversion Hall. reflexivity.
Defined.

(** C8 on the code.  Narrowing the wrapper that exposes both players, and
    the one that exposes none, raises [AttributeError]: the message of the
    failed [assert] reads [self.agent_names], which a [SingleAgentEnv] does
    not have, so no [AssertionError] is raised. *)
Theorem narrowing_raises_attribute_error :
  with_agent (mkDuel 0) (@nil (string * constant))
  = Ok (both_exposed, [EnvCopy; EnvReset])
  /\ agent_names both_exposed = ["player_0"; "player_1"]
  /\ as_single_agent both_exposed = Raise AttributeError
  /\ with_agent (mkDuel 0) both_agents
     = Ok (none_exposed,
           [EnvCopy; AgentCopy "player_0"; AgentCopy "player_1"; EnvReset])
  /\ agent_names none_exposed = []
  /\ as_single_agent none_exposed = Raise AttributeError.
Proof. repeat split. Qed.




(** ** Further runs of the model on the concrete game *)

(** Narrowing the wrapper that exposes one player returns; the adapter
    keeps the wrapper it was given, not the copy it has reset. *)
Example narrowing_one_remaining_returns :
  as_single_agent wrapped
  = Ok ({| sa_env := wrapped;
           sa_observation_space := tt;
           sa_action_space := tt;
           sa_agent_name := "player_0" |}, [EnvCopy; EnvReset]).
Proof. reflexivity. Qed.

(** The scenario of the specification: [player_1] always plays [0],
    [player_0] plays [2], the game ends after one step. *)
Example duel_scenario :
  forget (run 5 {| er_env := @Multi solo duel (mkDuel 0);
                   num_repetitions := 1;
                   max_step := None |} [] both_agents)
  = Ok (Mapping [("player_0", 0 # 1); ("player_1", 1 # 1)],
        {| er_env := Multi (mkDuel 1);
           num_repetitions := 1;
           max_step := None |}, [], both_agents).
Proof. reflexivity. Qed.

(** The same through the single-agent adapter, as a classic environment:
    the value is a number. *)
Example narrowed_scenario :
  exists final,
    forget (run 5 {| er_env := @Gym _ duel narrowed;
                     num_repetitions := 1;
                     max_step := None |} [mkConstant 2] [])
    = Ok (Scalar (0 # 1), final, [mkConstant 2], []).
Proof. eexists. reflexivity. Qed.

(** A step taken before any [reset] does not consult the delegated agent:
    the cache is empty, and the environment gets the caller's actions
    alone. *)
Example step_before_reset :
  exists r, PartialMultiAgentEnv_step wrapped [("player_0", 2)]
            = Ok (r, [EnvStep [("player_0", 2)]]).
Proof. eexists. reflexivity. Qed.

(** No repetition: the division of the initial sums fails. *)
Example run_zero_repetitions :
  run 5 {| er_env := @Multi solo duel (mkDuel 0);
           num_repetitions := 0;
           max_step := None |} [] both_agents
  = Raise ZeroDivisionError.
Proof. reflexivity. Qed.

(** Neither one unnamed agent nor named agents; an agent named [self]. *)
Example run_without_agent :
  let refused :=
    ValueError
      (Text "Either provide 1 unnamed agent or several named agents") in
  run 5 duel_runner (@nil constant) [] = Raise refused
  /\ run 5 duel_runner [mkConstant 2] both_agents = Raise refused
  /\ run 5 duel_runner [] [("self", mkConstant 2)] = Raise TypeError.
Proof. repeat split. Qed.

(** The step limit is a float: a limit of [2.5] stops an endless game
    after three steps, and with the limit NaN no step is made. *)
Example fractional_step_limit :
  exists r1 r2 log1 log2,
    _run_once 5 {| er_env := @Multi solo endless (mkEndless 0);
                   num_repetitions := 1;
                   max_step := Finite (5 # 2) |} [] both_agents
    = Ok (r1, log1)
    /\ count_steps log1 = 3%nat
    /\ _run_once 5 {| er_env := @Multi solo endless (mkEndless 0);
                      num_repetitions := 1;
                      max_step := NaN |} [] both_agents
       = Ok (r2, log2)
    /\ count_steps log2 = 0%nat.
Proof. eexists _, _, _, _. repeat split. Qed.

(** The rounding of the conversions and of the division. *)
Example float_rounding :
  to_double (2 ^ 53 + 1) = 2 ^ 53
  /\ to_double (2 ^ 53 + 3) = 2 ^ 53 + 4
  /\ round_double (1 # 3) = 6004799503160661 # 18014398509481984
  /\ float_div 1 3 = 6004799503160661 # 18014398509481984
  /\ float_div 1 (2 ^ 53 + 1) = float_div 1 (2 ^ 53).
Proof. repeat split. Qed.

(** Without a step limit an endless game exhausts any fuel. *)
Example endless_game_needs_a_limit :
  _run_once 7 {| er_env := @Multi solo endless (mkEndless 0);
                 num_repetitions := 1;
                 max_step := None |} [] both_agents
  = OutOfFuel.
Proof. reflexivity. Qed.

(** * Further properties of the code *)

(** ** StepOutcome: from outcomes to the multi-agent shape and back *)

Section OutcomeMore.

Context {Obs Val : Type}.

Lemma dict_wf_map_items {V W} (f : string -> V -> W) (d : dict V) :
  dict_wf d -> dict_wf (map (fun kv => (fst kv, f (fst kv) (snd kv))) d).
Proof. unfold dict_wf. now rewrite keys_map_items. Qed.

Lemma dict_get_map_field {V W} (g : V -> W) (d : dict V) (k : string) :
  dict_get k (map (fun kv => (fst kv, g (snd kv))) d)
  = option_map g (dict_get k d).
Proof. exact (dict_get_map_items (fun _ v => g v) d k). Qed.

Lemma In_keys_of_In {V} (d : dict V) (k : string) (v : V) :
  In (k, v) d -> In k (keys d).
Proof. intros Hin. apply in_map_iff. exists (k, v). auto. Qed.

(** X1. The mappings [to_multiagent_step] makes from outcomes (stored
    under distinct names, none of them ["__all__"]) give these outcomes
    and the flag back through [from_multiagent_step]. *)
Theorem outcomes_roundtrip (outcomes : dict (StepOutcome Obs Val))
    (flag : bool) :
  dict_wf outcomes ->
  ~ In "__all__" (keys outcomes) ->
  let '(obs, rew, dn, inf) := to_multiagent_step outcomes flag in
  from_multiagent_step obs rew dn inf = (outcomes, flag).
Proof.
  intros Hwf Hall. unfold to_multiagent_step, from_multiagent_step.
  rewrite !(dict_of_items_map _ outcomes Hwf).
  rewrite dict_of_items_map
    by (apply (dict_wf_map_items
                 (fun _ (x : StepOutcome Obs Val) => observation x));
        exact Hwf).
  rewrite map_map. simpl fst. simpl snd.
  f_equal.
  - etransitivity; [|apply map_items_id].
    apply map_ext_in. intros [name o] Hin. simpl. f_equal.
    pose proof (In_wf_get outcomes name o Hwf Hin) as Hget.
    assert (Hne : name <> "__all__").
    { intros ->. apply Hall. exact (In_keys_of_In _ _ _ Hin). }
    unfold get_default.
    rewrite (dict_get_set_neq name "__all__" flag _ Hne).
    rewrite !dict_get_map_field, Hget. simpl. destruct o; reflexivity.
  - unfold get_default. now rewrite dict_get_set_eq.
Qed.

(** X2. The four mappings of [to_multiagent_step] are aligned: each has
    an entry for every outcome and for nothing else, but for the entry
    ["__all__"] of the done mapping, which is always there and holds the
    flag (also when an outcome is stored under that name). *)
Theorem to_multiagent_step_keys (outcomes : dict (StepOutcome Obs Val))
    (flag : bool) (name : string) :
  let '(obs, rew, dn, inf) := to_multiagent_step outcomes flag in
  (In name (keys obs) <-> In name (keys outcomes))
  /\ (In name (keys rew) <-> In name (keys outcomes))
  /\ (In name (keys inf) <-> In name (keys outcomes))
  /\ (In name (keys dn) <-> name = "__all__" \/ In name (keys outcomes))
  /\ dict_get "__all__" dn = Some flag.
Proof.
  unfold to_multiagent_step.
  rewrite keys_dict_set_In, !dict_of_items_keys, dict_get_set_eq.
  tauto.
Qed.

End OutcomeMore.

(** ** PartialMultiAgentEnv: reset, step and copy *)

Section FilterFacts.

Context {V : Type}.
Variable q : string -> bool.

Lemma keys_filter_In (d : dict V) (k : string) :
  In k (keys (filter (fun kv => q (fst kv)) d)) -> In k (keys d).
Proof.
  unfold keys. rewrite !in_map_iff.
  intros (kv & Hk & Hin). apply filter_In in Hin. exists kv. tauto.
Qed.

Lemma dict_wf_filter (d : dict V) :
  dict_wf d -> dict_wf (filter (fun kv => q (fst kv)) d).
Proof.
  unfold dict_wf. induction d as [|[k v] d IH]; simpl; intros Hwf.
  - constructor.
  - inversion Hwf as [|? ? Hni Hnd]; subst.
    destruct (q k); simpl; [|auto].
    constructor; [|auto]. intros Hin. apply Hni.
    exact (keys_filter_In d k Hin).
Qed.

Lemma dict_get_filter (d : dict V) (k : string) :
  dict_get k (filter (fun kv => q (fst kv)) d)
  = if q k then dict_get k d else None.
Proof.
  induction d as [|[k0 v0] d IH]; simpl.
  - now destruct (q k).
  - destruct (String.eqb k k0) eqn:Hk.
    + apply String.eqb_eq in Hk. subst k0.
      destruct (q k) eqn:Hq; simpl.
      * now rewrite String.eqb_refl.
      * exact IH.
    + destruct (q k0); simpl; [rewrite Hk|]; exact IH.
Qed.

Lemma filter_map_items {W} (f : string -> V -> W) (d : dict V) :
  filter (fun kv => q (fst kv))
    (map (fun kv => (fst kv, f (fst kv) (snd kv))) d)
  = map (fun kv => (fst kv, f (fst kv) (snd kv)))
      (filter (fun kv => q (fst kv)) d).
Proof.
  induction d as [|[k v] d IH]; simpl; [reflexivity|].
  destruct (q k); simpl; now rewrite IH.
Qed.

End FilterFacts.

Section WrapperMore.

Context {Obs Action Val Space E A : Type}.
Context {HE : @MultiAgentEnv Obs Action Val Space E}.
Context {HA : @Agent Obs Action Val A}.

Local Abbreviation Partial := (@PartialMultiAgentEnv Obs Val Space E A).
Local Abbreviation ev := (event Obs Action Val).
Local Abbreviation outcome := (StepOutcome Obs Val).
Local Abbreviation act_event :=
  (fun kv : string * outcome => @AgentAct Obs Action Val (fst kv) (snd kv)).

Lemma agents_outcome_returns (agents : list (string * A))
    (outcomes : dict outcome) (acc : dict outcome) :
  (forall name, In name (keys agents) -> In name (keys outcomes)) ->
  exists cache,
    dict_of_items_r (fun name _ => getitem name outcomes) agents acc
    = Ok cache.
Proof.
  revert acc. induction agents as [|[name a] agents IH]; simpl; intros acc Hall.
  - eauto.
  - destruct (getitem_of_In name outcomes) as (o & Hget & _); [auto|].
    rewrite Hget. apply IH. auto.
Qed.

Lemma agents_outcome_raises (agents : list (string * A))
    (outcomes : dict outcome) (acc : dict outcome) :
  (exists name, In name (keys agents) /\ ~ In name (keys outcomes)) ->
  dict_of_items_r (fun name _ => getitem name outcomes) agents acc
  = Raise KeyError.
Proof.
  revert acc. induction agents as [|[name a] agents IH]; simpl;
    intros acc (missing & Hin & Hnot).
  - destruct Hin.
  - unfold getitem at 1.
    destruct (dict_get name outcomes) as [o|] eqn:Hget; [|reflexivity].
    apply IH. exists missing. split; [|exact Hnot].
    destruct Hin as [<-|Hin]; [|exact Hin].
    exfalso. apply Hnot. apply dict_get_In_keys. congruence.
Qed.

Lemma dict_of_items_r_keys {V W} (g : string -> result W)
    (items : list (string * V)) (acc res : dict W) :
  dict_of_items_r (fun name _ => g name) items acc = Ok res ->
  NoDup (keys acc ++ keys items) ->
  keys res = keys acc ++ keys items.
Proof.
  revert acc. induction items as [|[k v] items IH]; simpl; intros acc Hres Hnd.
  - inversion Hres. now rewrite app_nil_r.
  - destruct (g k) as [w| |]; try discriminate.
    assert (Hfresh : ~ In k (keys acc)).
    { intros Hin. apply NoDup_remove_2 in Hnd. apply Hnd.
      apply in_or_app. now left. }
    rewrite (IH _ Hres).
    + rewrite dict_set_new, keys_app by exact Hfresh.
      simpl. now rewrite <- app_assoc.
    + rewrite dict_set_new, keys_app by exact Hfresh.
      simpl. rewrite <- app_assoc. exact Hnd.
Qed.

Lemma dict_of_items_id {V} (d : dict V) :
  dict_wf d -> dict_of_items (fun _ v => v) d = d.
Proof.
  intros Hwf. rewrite (dict_of_items_map _ d Hwf). apply map_items_id.
Qed.

Lemma dict_wf_not_delegated {V} (agents : dict A) (d : dict V) :
  dict_wf d -> dict_wf (not_delegated agents d).
Proof. exact (dict_wf_filter (fun k => negb (mem k agents)) d). Qed.

Lemma not_delegated_items {V W} (agents : dict A) (f : string -> V -> W)
    (d : dict V) :
  dict_wf d ->
  not_delegated agents (dict_of_items f d)
  = dict_of_items f (not_delegated agents d).
Proof.
  intros Hwf.
  rewrite (dict_of_items_map f d Hwf).
  rewrite (dict_of_items_map f _ (dict_wf_not_delegated agents d Hwf)).
  exact (filter_map_items (fun k => negb (mem k agents)) f d).
Qed.

(** The outcomes a wrapper exposes, when the base environment returned
    observations under distinct names: those built from the observations
    of the participants that are not delegated. *)
Lemma exposed_outcomes (agents : dict A) (obs : dict Obs)
    (rew : dict (option Z)) (dn : dict bool) (inf : dict (Info Val)) :
  dict_wf obs ->
  dict_of_items (fun _ (o : outcome) => o)
    (not_delegated agents (fst (from_multiagent_step obs rew dn inf)))
  = fst (from_multiagent_step (not_delegated agents obs) rew dn inf).
Proof.
  intros Hwf. unfold from_multiagent_step. simpl.
  rewrite (not_delegated_items agents _ obs Hwf).
  apply dict_of_items_id. apply dict_of_items_wf.
Qed.

(** X3. [reset] needs an observation for every delegated agent: when the
    reset of the base environment returns, the wrapper's [reset] raises
    [KeyError] as soon as one delegated name is missing from the
    observations, and returns when none is. *)
Theorem reset_needs_every_delegated_agent (w : Partial) (r : E * dict Obs) :
  reset (pm_env w) = Ok r ->
  ((exists name, In name (keys (pm_agents w)) /\ ~ In name (keys (snd r))) ->
   PartialMultiAgentEnv_reset w = Raise KeyError)
  /\ ((forall name, In name (keys (pm_agents w)) -> In name (keys (snd r))) ->
      exists w' obs,
        PartialMultiAgentEnv_reset w = Ok ((w', obs), [EnvReset])).
Proof.
  intros Hreset. unfold PartialMultiAgentEnv_reset, agents_outcome.
  rewrite Hreset. simpl. split.
  - intros (name & Hin & Hnot).
    rewrite agents_outcome_raises; [reflexivity|].
    exists name. split; [exact Hin|]. intros Hk. apply Hnot.
    now apply dict_of_items_keys in Hk.
  - intros Hall.
    destruct (agents_outcome_returns (pm_agents w)
                (fst (from_multiagent_step (snd r) [] [] [])) [])
      as [cache Hcache].
    { intros name Hin. apply dict_of_items_keys. auto. }
    unfold from_multiagent_step in Hcache; simpl in Hcache.
    rewrite Hcache. simpl. eauto.
Qed.

(** X4. What a [reset] that returned gives, when the base environment
    reported its observations under distinct names: the caller gets the
    observations of the participants that are not delegated, as the base
    environment ordered them, and the cache holds for every delegated
    agent its observation with no reward, [done] false and no info. *)
Theorem reset_exposes_the_rest (w w' : Partial) (obs : dict Obs)
    (log : list ev) :
  PartialMultiAgentEnv_reset w = Ok ((w', obs), log) ->
  exists r,
    reset (pm_env w) = Ok r
    /\ pm_env w' = fst r
    /\ pm_agents w' = pm_agents w
    /\ (dict_wf (snd r) ->
        obs = not_delegated (pm_agents w) (snd r)
        /\ forall name,
             In name (keys (pm_agents w)) ->
             exists o,
               dict_get name (snd r) = Some o
               /\ dict_get name (pm_agents_outcome w')
                  = Some (mkStepOutcome o None false [])).
Proof.
  intros Hr. apply reset_Ok in Hr.
  destruct Hr as (r & cache & Hreset & Hcache & -> & -> & _).
  exists r. simpl. repeat split; auto.
  - unfold from_multiagent_step; simpl.
    rewrite (not_delegated_items (pm_agents w) _ (snd r) H).
    rewrite field_of_outcomes by (now apply dict_wf_not_delegated).
    apply map_items_id.
  - intros name Hin. unfold agents_outcome in Hcache.
    destruct (dict_of_items_r_get
                (fun name =>
                   getitem name (fst (from_multiagent_step (snd r) [] [] [])))
                (pm_agents w) [] cache name Hcache) as [Hfound _].
    destruct (Hfound Hin) as (o' & Hget & Hcached).
    apply getitem_Ok in Hget.
    unfold from_multiagent_step in Hget; simpl in Hget.
    rewrite (dict_of_items_map _ _ H) in Hget.
    rewrite (dict_get_map_items
               (fun agent (o : Obs) =>
                  mkStepOutcome o (get_default agent None [])
                    (get_default agent (get_default "__all__" false []) [])
                    (get_default agent [] ([] : dict (Info Val))))
               (snd r) name) in Hget.
    destruct (dict_get name (snd r)) as [o|]; [|discriminate].
    exists o. split; [reflexivity|]. rewrite Hcached.
    simpl in Hget. inversion Hget. reflexivity.
Qed.

Lemma mem_same_keys {V W} (a : dict V) (b : dict W) (k : string) :
  keys a = keys b -> mem k a = mem k b.
Proof.
  intros Hkeys.
  destruct (mem k a) eqn:Ha, (mem k b) eqn:Hb; try reflexivity.
  - apply mem_In_keys in Ha. rewrite Hkeys in Ha.
    apply mem_In_keys in Ha. congruence.
  - apply mem_In_keys in Hb. rewrite <- Hkeys in Hb.
    apply mem_In_keys in Hb. congruence.
Qed.

Lemma not_delegated_same_keys {V} (a b : dict A) (d : dict V) :
  keys a = keys b -> not_delegated a d = not_delegated b d.
Proof.
  intros Hkeys. unfold not_delegated. apply filter_ext.
  intros kv. now rewrite (mem_same_keys a b _ Hkeys).
Qed.

(** The shape made from the outcomes of observations under distinct
    names: the observations themselves, and the default-filled rewards,
    done flags and infos. *)
Lemma shape_of_outcomes (obs : dict Obs) (rew : dict (option Z))
    (dn : dict bool) (inf : dict (Info Val)) (flag : bool) :
  dict_wf obs ->
  to_multiagent_step (fst (from_multiagent_step obs rew dn inf)) flag
  = (obs,
     map (fun kv => (fst kv, get_default (fst kv) None rew)) obs,
     dict_set "__all__" flag
       (map (fun kv =>
               (fst kv,
                get_default (fst kv) (get_default "__all__" false dn) dn))
          obs),
     map (fun kv => (fst kv, get_default (fst kv) [] inf)) obs).
Proof.
  intros Hwf. unfold to_multiagent_step, from_multiagent_step; simpl.
  rewrite !(field_of_outcomes _ _ obs Hwf). simpl.
  rewrite map_items_id. reflexivity.
Qed.

(** X5. [step] needs an observation for every delegated agent too: when
    the delegated agents have acted and the step of the base environment
    has returned, the wrapper's [step] raises [KeyError] as soon as one
    delegated name is missing from the observations of that step, and
    returns when none is. *)
Theorem step_needs_every_delegated_agent (w : Partial)
    (action_dict computed : dict Action) (agents' : dict A) (l1 : list ev)
    (env' : E) (obs : dict Obs) (rew : dict (option Z)) (dn : dict bool)
    (inf : dict (Info Val)) :
  act_agents (pm_agents w) (pm_agents_outcome w) []
  = Ok ((agents', computed), l1) ->
  step (pm_env w) (update computed action_dict)
  = Ok (env', (obs, rew, dn, inf)) ->
  ((exists name, In name (keys (pm_agents w)) /\ ~ In name (keys obs)) ->
   PartialMultiAgentEnv_step w action_dict = Raise KeyError)
  /\ ((forall name, In name (keys (pm_agents w)) -> In name (keys obs)) ->
      exists w' shape,
        PartialMultiAgentEnv_step w action_dict
        = Ok ((w', shape), l1 ++ [EnvStep (update computed action_dict)])).
Proof.
  intros Hact Hstep.
  pose proof (act_agents_Ok _ _ _ _ _ _ Hact) as (Hkeys & _).
  unfold PartialMultiAgentEnv_step, agents_outcome.
  rewrite Hact. simpl. rewrite Hstep. simpl. split.
  - intros (name & Hin & Hnot).
    rewrite agents_outcome_raises; [reflexivity|].
    exists name. rewrite Hkeys. split; [exact Hin|]. intros Hk. apply Hnot.
    now apply dict_of_items_keys in Hk.
  - intros Hall.
    destruct (agents_outcome_returns agents'
                (fst (from_multiagent_step obs rew dn inf)) [])
      as [cache Hcache].
    { intros name Hin. apply dict_of_items_keys. apply Hall.
      now rewrite <- Hkeys. }
    unfold from_multiagent_step in Hcache; simpl in Hcache.
    rewrite Hcache. simpl. rewrite ?app_nil_r. eauto.
Qed.

(** X6. What a [step] that returned gives: the overall flag of the base
    environment under ["__all__"] (false when the base environment gave
    none) and, when the base environment reported its observations under
    distinct names, the observations of the participants that are not
    delegated, each with its reward ([None] when missing), its info (empty
    when missing) and its done flag (the overall flag when missing). *)
Theorem step_forwards_the_rest (w w' : Partial) (action_dict : dict Action)
    (obs : dict Obs) (rew : dict (option Z)) (dn : dict bool)
    (inf : dict (Info Val)) (log : list ev) :
  PartialMultiAgentEnv_step w action_dict
  = Ok ((w', (obs, rew, dn, inf)), log) ->
  exists full_action_dict base_obs base_rew base_dn base_inf,
    step (pm_env w) full_action_dict
    = Ok (pm_env w', (base_obs, base_rew, base_dn, base_inf))
    /\ dict_get "__all__" dn = Some (get_default "__all__" false base_dn)
    /\ (dict_wf base_obs ->
        obs = not_delegated (pm_agents w) base_obs
        /\ forall name,
             In name (keys obs) ->
             dict_get name rew = Some (get_default name None base_rew)
             /\ dict_get name inf = Some (get_default name [] base_inf)
             /\ (name <> "__all__" ->
                 dict_get name dn
                 = Some (get_default name
                           (get_default "__all__" false base_dn) base_dn))).
Proof.
  intros Hs. apply step_Ok in Hs.
  destruct Hs as (agents' & computed & l1 & env' & bo & br & bd & bi & cache
                  & Hact & Hstep & _ & -> & Hshape & _).
  apply act_agents_Ok in Hact. destruct Hact as (Hkeys & _).
  exists (update computed action_dict), bo, br, bd, bi. simpl.
  split; [exact Hstep|]. split.
  - unfold to_multiagent_step in Hshape. inversion Hshape.
    apply dict_get_set_eq.
  - intros Hwf.
    rewrite (exposed_outcomes agents' bo br bd bi Hwf) in Hshape.
    rewrite (not_delegated_same_keys agents' (pm_agents w) bo Hkeys) in Hshape.
    pose proof (dict_wf_not_delegated (pm_agents w) bo Hwf) as Hwf'.
    rewrite (shape_of_outcomes _ br bd bi _ Hwf') in Hshape.
    inversion Hshape; subst; clear Hshape.
    split; [reflexivity|]. intros name Hin.
    apply dict_get_In_keys in Hin.
    destruct (dict_get name (not_delegated (pm_agents w) bo)) as [o|] eqn:Hget;
      [clear Hin|congruence].
    pose proof (fun W (h : string -> W) =>
                  dict_get_map_items (fun agent (_ : Obs) => h agent)
                    (not_delegated (pm_agents w) bo) name) as Hfield.
    rewrite Hget in Hfield. simpl in Hfield.
    repeat split.
    + exact (Hfield _ (fun agent => get_default agent None br)).
    + exact (Hfield _ (fun agent => get_default agent [] bi)).
    + intros Hne. rewrite dict_get_set_neq by exact Hne.
      exact (Hfield _ (fun agent =>
                         get_default agent (get_default "__all__" false bd) bd)).
Qed.

(** A step on an empty cache asks no agent and hands the mapping of the
    caller to the base environment as it is. *)
Lemma empty_cache_step (w : Partial) (action_dict : dict Action) :
  pm_agents_outcome w = [] ->
  dict_wf action_dict ->
  (forall e,
      step (pm_env w) action_dict = Raise e ->
      PartialMultiAgentEnv_step w action_dict = Raise e)
  /\ (forall r log,
        PartialMultiAgentEnv_step w action_dict = Ok (r, log) ->
        log = [EnvStep action_dict]
        /\ pm_agents (fst r) = pm_agents w
        /\ exists shape,
             step (pm_env w) action_dict = Ok (pm_env (fst r), shape)).
Proof.
  intros Hempty Hwf.
  assert (Hupdate : update [] action_dict = action_dict).
  { change (update [] action_dict)
      with (dict_of_items (fun _ (v : Action) => v) action_dict).
    now apply dict_of_items_id. }
  split.
  - intros e He. unfold PartialMultiAgentEnv_step.
    rewrite Hempty. simpl. rewrite Hupdate, He. reflexivity.
  - intros [w' shape] log Hs. apply step_Ok in Hs.
    destruct Hs as (agents' & computed & l1 & env' & bo & br & bd & bi & cache
                    & Hact & Hstep & _ & -> & _ & ->).
    rewrite Hempty in Hact. simpl in Hact. inversion Hact; subst.
    rewrite Hupdate in *. simpl. repeat split; eauto.
Qed.

(** X7. A step on a wrapper whose cache is empty -- as the construction
    leaves it, before any [reset] -- asks no delegated agent to act: the
    only call is the step of the base environment, with the mapping of the
    caller as it is, and the delegated agents are left as they were. *)
Theorem step_before_reset_asks_no_agent (w : Partial)
    (action_dict : dict Action) :
  pm_agents_outcome w = [] ->
  dict_wf action_dict ->
  (forall e,
      step (pm_env w) action_dict = Raise e ->
      PartialMultiAgentEnv_step w action_dict = Raise e)
  /\ (forall r log,
        PartialMultiAgentEnv_step w action_dict = Ok (r, log) ->
        log = [EnvStep action_dict]
        /\ pm_agents (fst r) = pm_agents w
        /\ exists shape,
             step (pm_env w) action_dict = Ok (pm_env (fst r), shape)).
Proof. exact (empty_cache_step w action_dict). Qed.

(** X8. Once a [reset] or a [step] of a wrapper (with agents under
    distinct names) has returned, the cache holds one outcome per
    delegated agent, in the order of the agents, and the next [step] that
    returns has made every delegated agent act exactly once, on the
    outcome cached for it, before the one step of the base environment. *)
Theorem delegated_agents_act_once (w w' : Partial) :
  dict_wf (pm_agents w) ->
  (exists obs log, PartialMultiAgentEnv_reset w = Ok ((w', obs), log))
  \/ (exists action_dict shape log,
         PartialMultiAgentEnv_step w action_dict = Ok ((w', shape), log)) ->
  keys (pm_agents_outcome w') = keys (pm_agents w')
  /\ keys (pm_agents w') = keys (pm_agents w)
  /\ forall action_dict r log,
       PartialMultiAgentEnv_step w' action_dict = Ok (r, log) ->
       exists full_action_dict,
         log = map act_event (pm_agents_outcome w')
               ++ [EnvStep full_action_dict].
Proof.
  intros Hwf Hreached.
  assert (Hcache : keys (pm_agents_outcome w') = keys (pm_agents w')
                   /\ keys (pm_agents w') = keys (pm_agents w)).
  { destruct Hreached as [(obs & log & Hr)|(action_dict & shape & log & Hs)].
    - apply reset_Ok in Hr.
      destruct Hr as (r & cache & _ & Hcache & -> & _). simpl.
      split; [|reflexivity].
      exact (dict_of_items_r_keys _ _ _ _ Hcache Hwf).
    - apply step_Ok in Hs.
      destruct Hs as (agents' & computed & l1 & env' & bo & br & bd & bi
                      & cache & Hact & _ & Hcache & -> & _).
      apply act_agents_Ok in Hact. destruct Hact as (Hkeys & _). simpl.
      split; [|exact Hkeys].
      apply (dict_of_items_r_keys _ _ _ _ Hcache). simpl.
      unfold dict_wf in Hwf. now rewrite Hkeys. }
  split; [exact (proj1 Hcache)|]. split; [exact (proj2 Hcache)|].
  intros action_dict [w2 shape] log Hs. apply step_Ok in Hs.
  destruct Hs as (agents' & computed & l1 & env' & bo & br & bd & bi & cache
                  & Hact & _ & _ & _ & _ & ->).
  apply act_agents_Ok in Hact. destruct Hact as (_ & -> & _).
  eauto.
Qed.

(** X9. [copy] does not take a snapshot of the episode under way: the copy
    wraps a copy of the current base environment that has been reset, its
    cache is empty and its names are worked out again from the current
    base environment; the first step of the copy, taken before a [reset],
    asks no delegated agent to act. *)
Theorem copy_starts_afresh (w c : Partial) (log : list ev) :
  PartialMultiAgentEnv_copy w = Ok (c, log) ->
  (exists env' r,
      copy (pm_env w) = Ok env' /\ reset env' = Ok r /\ pm_env c = fst r)
  /\ pm_agents_outcome c = []
  /\ agent_names c
     = remove_names (keys (pm_agents w)) (agent_names (pm_env w))
  /\ log = EnvCopy :: map AgentCopy (keys (pm_agents w)) ++ [EnvReset]
  /\ forall action_dict r l,
       dict_wf action_dict ->
       PartialMultiAgentEnv_step c action_dict = Ok (r, l) ->
       l = [EnvStep action_dict].
Proof.
  unfold PartialMultiAgentEnv_copy. intros Hcopy. apply init_Ok in Hcopy.
  destruct Hcopy as (env' & agents' & r & Hc & _ & Hr & _ & -> & ->).
  simpl. split; [eauto|]. split; [reflexivity|].
  split; [apply filter_not_mem_remove_names|]. split; [reflexivity|].
  intros action_dict r0 l Hwf Hs.
  match type of Hs with
  | PartialMultiAgentEnv_step ?c _ = _ =>
      destruct (empty_cache_step c action_dict) as [_ Hlog];
      [reflexivity | exact Hwf |]
  end.
  exact (proj1 (Hlog r0 l Hs)).
Qed.

End WrapperMore.

(** ** SingleAgentEnv: reset and step *)

Section AdapterMore.

Context {Obs Action Val Space E A : Type}.
Context {HE : @MultiAgentEnv Obs Action Val Space E}.
Context {HA : @Agent Obs Action Val A}.

Local Abbreviation Partial := (@PartialMultiAgentEnv Obs Val Space E A).
Local Abbreviation Single := (@SingleAgentEnv Obs Val Space E A).
Local Abbreviation ev := (event Obs Action Val).

(** A [reset] of the wrapper on observations under distinct names that
    cover the delegated agents. *)
Lemma reset_returns_exposed (w : Partial) (r : E * dict Obs) :
  reset (pm_env w) = Ok r ->
  dict_wf (snd r) ->
  (forall name, In name (keys (pm_agents w)) -> In name (keys (snd r))) ->
  exists w',
    PartialMultiAgentEnv_reset w
    = Ok ((w', not_delegated (pm_agents w) (snd r)), [EnvReset])
    /\ pm_agent_names w' = pm_agent_names w.
Proof.
  intros Hreset Hwf Hall.
  destruct (agents_outcome_returns (pm_agents w)
              (fst (from_multiagent_step (Val := Val) (snd r) [] [] [])) [])
    as [cache Hcache].
  { intros name Hin. apply dict_of_items_keys. auto. }
  assert (Hobs : dict_of_items
                   (fun _ (o : StepOutcome Obs Val) => observation o)
                   (not_delegated (pm_agents w)
                      (fst (from_multiagent_step (snd r) [] [] [])))
                 = not_delegated (pm_agents w) (snd r)).
  { unfold from_multiagent_step; simpl.
    rewrite (not_delegated_items (pm_agents w) _ (snd r) Hwf).
    rewrite field_of_outcomes by (now apply dict_wf_not_delegated).
    apply map_items_id. }
  eexists. unfold PartialMultiAgentEnv_reset.
  erewrite bind_returns; [|rewrite Hreset; reflexivity|].
  2:{ erewrite bind_returns; [reflexivity| |reflexivity].
      unfold agents_outcome. rewrite Hcache. reflexivity. }
  rewrite Hobs. split; reflexivity.
Qed.

(** X10. The adapter's [reset] unwraps the observation of its agent:
    when the base environment reports observations under distinct names
    that cover the delegated agents, and the agent of the adapter is not
    one of them, [reset] returns the observation the base environment
    gave for that agent, and raises [KeyError] when it gave none. *)
Theorem single_agent_reset_observation (self : Single) (r : E * dict Obs) :
  let w := sa_env self in
  let an := sa_agent_name self in
  reset (pm_env w) = Ok r ->
  dict_wf (snd r) ->
  (forall name, In name (keys (pm_agents w)) -> In name (keys (snd r))) ->
  mem an (pm_agents w) = false ->
  match dict_get an (snd r) with
  | Some o =>
      exists self',
        SingleAgentEnv_reset self = Ok ((self', o), [EnvReset])
        /\ sa_agent_name self' = an
  | None => SingleAgentEnv_reset self = Raise KeyError
  end.
Proof.
  intros w an Hreset Hwf Hall Hmem.
  destruct (reset_returns_exposed w r Hreset Hwf Hall) as (w' & Hr & _).
  assert (Hget : dict_get an (not_delegated (pm_agents w) (snd r))
                 = dict_get an (snd r)).
  { unfold not_delegated.
    rewrite (dict_get_filter (fun k => negb (mem k (pm_agents w)))).
    now rewrite Hmem. }
  unfold SingleAgentEnv_reset. fold w. fold an.
  assert (Hcall : reset w = Ok (w', not_delegated (pm_agents w) (snd r))).
  { simpl. now rewrite Hr. }
  rewrite Hcall. simpl. unfold getitem. rewrite Hget.
  destruct (dict_get an (snd r)) as [o|]; simpl; [|reflexivity].
  eexists. split; reflexivity.
Qed.

(** X11. The adapter's [step] needs its agent among the observations:
    when the step of the wrapper returns observations without the agent
    of the adapter (the base environment did not report it on this step),
    [step] raises [KeyError]. *)
Theorem single_agent_step_needs_the_agent (self : Single) (action : Action)
    (w' : Partial) (obs : dict Obs) (rew : dict (option Z))
    (dn : dict bool) (inf : dict (Info Val)) :
  let an := sa_agent_name self in
  step (sa_env self) [(an, action)] = Ok (w', (obs, rew, dn, inf)) ->
  ~ In an (keys obs) ->
  SingleAgentEnv_step self action = Raise KeyError.
Proof.
  intros an Hstep Hnot. unfold SingleAgentEnv_step. fold an. cbv zeta.
  rewrite Hstep. simpl. unfold getitem.
  now rewrite (dict_get_not_In an obs Hnot).
Qed.

End AdapterMore.

(** ** EnvironmentRunner: arguments, bounds and failures *)

Section RunnerMore.

Context {Obs Action Val Space G E A : Type}.
Context {HG : @GymEnv Obs Action Val G}.
Context {HE : @MultiAgentEnv Obs Action Val Space E}.
Context {HA : @Agent Obs Action Val A}.

Local Abbreviation ev := (event Obs Action Val).
Local Abbreviation outcome := (StepOutcome Obs Val).
Local Abbreviation state := (@loop_state Obs Val G E A).
Local Abbreviation act_event :=
  (fun kv : string * outcome => @AgentAct Obs Action Val (fst kv) (snd kv)).

Lemma bind_raises {X Y} (m : @M Obs Action Val X)
    (k : X -> @M Obs Action Val Y) x l e :
  m = Ok (x, l) -> k x = Raise e -> bind m k = Raise e.
Proof. intros -> Hk. simpl. now rewrite Hk. Qed.

Lemma bind_bind_raises {X Y W} (m : @M Obs Action Val X)
    (k1 : X -> @M Obs Action Val Y) (k2 : X -> Y -> @M Obs Action Val W) e :
  bind m k1 = Raise e -> bind m (fun x => bind (k1 x) (k2 x)) = Raise e.
Proof.
  destruct m as [[x l]| |]; simpl; try (intros H; exact H || discriminate H).
  - destruct (k1 x) as [[y l2]| |]; simpl; try discriminate.
    intros H. inversion H. reflexivity.
  - intros H. inversion H. reflexivity.
Qed.


Lemma initial_sums_nonempty (agents : dict A) : initial_sums agents <> [].
Proof.
  unfold initial_sums. destruct (truthy agents) eqn:Ht; [|discriminate].
  destruct agents as [|[k a] agents]; [discriminate|].
  intros Hnil.
  assert (Hin : In k (keys (dict_of_items (fun _ (_ : A) => 0)
                              ((k, a) :: agents)))).
  { apply dict_of_items_keys. now left. }
  rewrite Hnil in Hin. destruct Hin.
Qed.

(** X12. The arguments of an episode.  The named agents are keyword
    arguments of [run] and of [_run_once], so an agent named [self] makes
    both raise [TypeError] at the call.  Otherwise: one unnamed agent and
    no named one is run under the name ["single_agent_name"]; named agents
    and no unnamed one are run as they are; anything else -- no agent at
    all, several unnamed agents, unnamed and named agents together --
    makes [_run_once] raise [ValueError] before any call on a
    collaborator, and so does [run] when it has at least one repetition to
    make. *)
Theorem run_argument_check (fuel : nat) (self : EnvironmentRunner G E)
    (single_agent : list A) (agents : dict A) :
  let refused :=
    ValueError
      (Text "Either provide 1 unnamed agent or several named agents") in
  if mem "self" agents then
    _run_once fuel self single_agent agents = Raise TypeError
    /\ run fuel self single_agent agents = Raise TypeError
  else
    match single_agent, agents with
    | [agent], [] => local_agents single_agent agents = Ok [(san, agent)]
    | [], _ :: _ => local_agents single_agent agents = Ok agents
    | _, _ =>
        _run_once fuel self single_agent agents = Raise refused
        /\ (1 <= num_repetitions self ->
            run fuel self single_agent agents = Raise refused)
    end.
Proof.
  intros refused.
  destruct (mem "self" agents) eqn:Hself.
  - split.
    + unfold _run_once. now rewrite (local_agents_keyword _ _ Hself).
    + unfold run. now rewrite (bind_self_taken _ Hself).
  - assert (Hrun : _run_once fuel self single_agent agents = Raise refused ->
                   1 <= num_repetitions self ->
                   run fuel self single_agent agents = Raise refused).
    { intros Hraise Hk. unfold run.
      rewrite (bind_self_free _ Hself), bind_lift_Ok.
      destruct (Z.to_nat (num_repetitions self)) as [|n] eqn:Hn; [lia|].
      simpl. rewrite Hraise. reflexivity. }
    assert (Hlocal : forall e,
               local_agents single_agent agents = Raise e ->
               _run_once fuel self single_agent agents = Raise e).
    { intros e He. unfold _run_once. now rewrite He. }
    pose proof (local_agents_bound single_agent agents Hself) as Hbound.
    destruct single_agent as [|a [|b rest]], agents as [|[k v] agents];
      try exact Hbound;
      (assert (Hraise : _run_once fuel self _ _ = Raise refused)
         by (apply Hlocal; exact Hbound));
      (split; [exact Hraise | exact (Hrun Hraise)]).
Qed.

(** X13. With a repetition count of zero [run] runs no episode and does
    not check how many agents it was given: whatever the agents and the
    environment, the division of the initial sums fails with
    [ZeroDivisionError] -- unless an agent is named [self], which the call
    itself refuses with [TypeError]. *)
Theorem zero_repetitions_divide_by_zero (fuel : nat)
    (self : EnvironmentRunner G E) (single_agent : list A)
    (agents : dict A) :
  num_repetitions self = 0 ->
  run fuel self single_agent agents
  = if mem "self" agents then Raise TypeError else Raise ZeroDivisionError.
Proof.
  intros Hk. unfold run.
  destruct (mem "self" agents) eqn:Hself;
    [now rewrite (bind_self_taken _ Hself)|].
  rewrite (bind_self_free _ Hself), bind_lift_Ok.
  rewrite Hk. simpl.
  pose proof (initial_sums_nonempty agents) as Hne.
  destruct (initial_sums agents) as [|[name v] rest]; [congruence|].
  simpl. rewrite Hk. reflexivity.
Qed.

(** X14. With a negative repetition count [k], [run] runs no episode
    and does not check how many agents it was given: it calls nothing and
    returns averages that are all [0 / k] -- a mapping over the names of
    the agents for a multi-agent environment, the entry
    ["single_agent_name"] for a classic one, with [KeyError] when the
    named agents have no such entry.  Before that, an agent named [self]
    is refused by the call itself with [TypeError], and a count too large
    to convert to a float makes the division raise [OverflowError]. *)
Theorem negative_repetitions_run_nothing (fuel : nat)
    (self : EnvironmentRunner G E) (single_agent : list A)
    (agents : dict A) :
  num_repetitions self < 0 ->
  let zero := (inject_Z 0 / inject_Z (num_repetitions self))%Q in
  run fuel self single_agent agents
  = if mem "self" agents then Raise TypeError
    else if negb (fits_double (num_repetitions self)) then Raise OverflowError
    else
      match er_env self with
      | Multi _ =>
          Ok ((Mapping (map (fun kv => (fst kv, zero)) (initial_sums agents)),
               self, single_agent, agents), [])
      | Gym _ =>
          if mem san (initial_sums agents)
          then Ok ((Scalar zero, self, single_agent, agents), [])
          else Raise KeyError
      end.
Proof.
  intros Hk zero. unfold run.
  destruct (mem "self" agents) eqn:Hself;
    [now rewrite (bind_self_taken _ Hself)|].
  rewrite (bind_self_free _ Hself), bind_lift_Ok.
  assert (Hn : Z.to_nat (num_repetitions self) = 0%nat) by lia.
  rewrite Hn. simpl.
  destruct (fits_double (num_repetitions self)) eqn:Hfits; cbn [negb].
  - assert (Hmeans : dict_of_items_r
                       (fun _ value => mean (num_repetitions self) value)
                       (initial_sums agents) []
                     = Ok (map (fun kv => (fst kv, zero))
                             (initial_sums agents))).
    { rewrite (mean_rewards_returns (num_repetitions self)
                 (initial_sums agents) []);
        [|lia|exact Hfits|apply initial_sums_wf].
      simpl. f_equal. apply map_ext_in. intros [name v] Hin. simpl.
      pose proof (In_wf_get _ _ _ (initial_sums_wf agents) Hin) as Hget.
      rewrite (initial_sums_zero agents name) in Hget
        by exact (In_keys_of_In _ _ _ Hin).
      inversion Hget. reflexivity. }
    rewrite Hmeans. simpl.
    destruct (er_env self) as [g|e]; [|reflexivity].
    unfold getitem, mem.
    rewrite (dict_get_map_field (fun _ : Z => zero) (initial_sums agents) san).
    destruct (dict_get san (initial_sums agents)); reflexivity.
  - pose proof (initial_sums_nonempty agents) as Hne.
    destruct (initial_sums agents) as [|[name v] rest]; [congruence|].
    simpl. unfold mean at 1. rewrite Hfits. reflexivity.
Qed.

Lemma accumulate_log (outs : list (string * outcome)) (sums sums' : dict Z)
    (l : list ev) :
  accumulate outs sums = Ok (sums', l) -> l = [].
Proof.
  revert sums. induction outs as [|[name o] outs IH]; simpl; intros sums Hacc.
  - apply ret_Ok in Hacc. tauto.
  - destruct (reward o); [eauto | discriminate].
Qed.


Lemma act_agents_raises (agents : dict A) (outs : list (string * outcome))
    (acc : dict Action) :
  agents_return (A := A) ->
  (exists name, In name (keys outs) /\ ~ In name (keys agents)) ->
  act_agents agents outs acc = Raise KeyError.
Proof.
  intros [Hact _]. revert agents acc.
  induction outs as [|[name o] outs IH]; simpl;
    intros agents acc (missing & Hin & Hnot).
  - destruct Hin.
  - unfold getitem.
    destruct (dict_get name agents) as [a|] eqn:Hget; [|reflexivity].
    simpl.
    destruct (Hact a (observation o) (reward o) (done o) (info o))
      as (a' & action & Ha).
    rewrite Ha. simpl.
    assert (Hname : In name (keys agents))
      by (apply dict_get_In_keys; congruence).
    rewrite IH; [reflexivity|].
    exists missing. rewrite keys_dict_set_present by exact Hname.
    split; [|exact Hnot].
    destruct Hin as [<-|Hin]; [contradiction | exact Hin].
Qed.

Lemma runner_reset_log (env : runner_env G E)
    (r : runner_env G E * dict outcome * bool) (l : list ev) :
  runner_reset env = Ok (r, l) -> count_steps l = 0%nat /\ snd r = false.
Proof.
  destruct env as [g|e]; simpl; intros Hr.
  - monad_inv. split; reflexivity.
  - apply bind_Ok in Hr. destruct Hr as ([e' obs] & l1 & l2 & Hc & Hrest & ->).
    apply call_Ok in Hc. destruct Hc as [_ ->].
    cbv beta iota in Hrest. apply ret_Ok in Hrest.
    destruct Hrest as [<- ->]. split; reflexivity.
Qed.

Lemma runner_step_log (env : runner_env G E) (actions : dict Action)
    (r : runner_env G E * dict outcome * bool) (l : list ev) :
  runner_step env actions = Ok (r, l) -> count_steps l = 1%nat.
Proof.
  destruct env as [g|e]; simpl; intros Hr.
  - apply bind_Ok in Hr. destruct Hr as (action & l1 & l2 & Hg & Hrest & ->).
    apply lift_Ok in Hg. destruct Hg as [_ ->].
    apply bind_Ok in Hrest.
    destruct Hrest as ([g' [[[o rw] dn] i]] & l3 & l4 & Hc & Hrest & ->).
    apply call_Ok in Hc. destruct Hc as [_ ->].
    cbv beta iota in Hrest. apply ret_Ok in Hrest. destruct Hrest as [_ ->].
    reflexivity.
  - apply bind_Ok in Hr.
    destruct Hr as ([e' [[[obs rew] dn] inf]] & l1 & l2 & Hc & Hrest & ->).
    apply call_Ok in Hc. destruct Hc as [_ ->].
    cbv beta iota in Hrest. apply ret_Ok in Hrest. destruct Hrest as [_ ->].
    reflexivity.
Qed.

(** A cycle that returns has called [step] once and counted one step. *)
Lemma loop_body_count (s s' : state) (l : list ev) :
  loop_body s = Ok (s', l) ->
  count_steps l = 1%nat /\ ls_step s' = ls_step s + 1.
Proof.
  unfold loop_body. intros Hbody.
  apply bind_Ok in Hbody.
  destruct Hbody as ([agents' actions] & l1 & l2 & Hact & Hrest & ->).
  cbv beta iota in Hrest. apply bind_Ok in Hrest.
  destruct Hrest as ([[env' outs] d] & l3 & l4 & Hstep & Hrest & ->).
  cbv beta iota in Hrest. apply bind_Ok in Hrest.
  destruct Hrest as (sums & l5 & l6 & Hacc & Hrest & ->).
  apply ret_Ok in Hrest. destruct Hrest as [<- ->].
  apply act_agents_Ok in Hact. destruct Hact as (_ & -> & _).
  apply runner_step_log in Hstep. apply accumulate_log in Hacc. subst l5.
  rewrite !count_steps_app, count_steps_acts, Hstep. simpl.
  split; reflexivity.
Qed.

(** The loop counts its cycles, makes no more of them than its fuel
    allows, enters each of them with its counter below the limit, and
    stops only when its test fails. *)
Lemma run_loop_count (limit : pyfloat) (fuel : nat) :
  forall (s s' : state) (l : list ev),
    run_loop fuel limit s = Ok (s', l) ->
    ls_step s' = ls_step s + Z.of_nat (count_steps l)
    /\ (count_steps l <= fuel)%nat
    /\ (count_steps l <> 0%nat ->
        int_lt_float (ls_step s' - 1) limit = true)
    /\ loop_test limit s' = false.
Proof.
  induction fuel as [|fuel IH]; simpl; intros s s' l Hloop.
  - destruct (loop_test limit s) eqn:Htest; [discriminate|].
    apply ret_Ok in Hloop. destruct Hloop as [<- ->].
    unfold count_steps; simpl.
    split; [lia|]. split; [lia|]. split; [congruence | exact Htest].
  - destruct (loop_test limit s) eqn:Htest.
    + apply bind_Ok in Hloop.
      destruct Hloop as (s1 & l1 & l2 & Hbody & Hrest & ->).
      apply loop_body_count in Hbody. destruct Hbody as [Hc1 Hs1].
      apply IH in Hrest. destruct Hrest as (Hs' & Hfuel & Hlast & Hexit).
      rewrite count_steps_app, Hc1.
      split; [lia|]. split; [lia|]. split; [|exact Hexit].
      intros _.
      destruct (count_steps l2) as [|c] eqn:Hc2; [|apply Hlast; lia].
      unfold loop_test in Htest. apply andb_true_iff in Htest.
      destruct Htest as [Hlt _].
      replace (ls_step s' - 1) with (ls_step s) by lia. exact Hlt.
    + apply ret_Ok in Hloop. destruct Hloop as [<- ->].
      unfold count_steps; simpl.
      split; [lia|]. split; [lia|]. split; [congruence | exact Htest].
Qed.

(** An integer below a float is below its ceiling. *)
Lemma int_lt_float_ceiling (n : Z) (q : Q) :
  int_lt_float n (Finite q) = true -> n + 1 <= Qceiling q.
Proof.
  intros Hlt. apply int_lt_float_Finite in Hlt.
  assert (Hc : (inject_Z n < inject_Z (Qceiling q))%Q).
  { eapply Qlt_le_trans; [exact Hlt | apply Qle_ceiling]. }
  rewrite <- Zlt_Qlt in Hc. lia.
Qed.

(** X15. The step limit and the fuel bound every episode, on any
    environment and with any agents.  The limit is a float: an episode
    that returns has called the [step] of the environment at most
    [ceil(max_step)] times -- three times with a limit of [2.5] -- and not
    at all when the limit is zero, negative, minus infinity or NaN; it has
    called it at most once per unit of fuel. *)
Theorem episode_steps_bounded (fuel : nat) (self : EnvironmentRunner G E)
    (single_agent : list A) (agents : dict A)
    (r : dict Z * EnvironmentRunner G E * list A * dict A) (log : list ev) :
  _run_once fuel self single_agent agents = Ok (r, log) ->
  (count_steps log <= fuel)%nat
  /\ match max_step self with
     | Finite q => Z.of_nat (count_steps log) <= Z.max 0 (Qceiling q)
     | PosInf => True
     | NegInf | NaN => count_steps log = 0%nat
     end.
Proof.
  unfold _run_once. intros Hrun.
  apply bind_Ok in Hrun. destruct Hrun as (local & l1 & l2 & Hlocal & Hrun & ->).
  apply lift_Ok in Hlocal. destruct Hlocal as [_ ->].
  apply bind_Ok in Hrun. destruct Hrun as (local1 & l3 & l4 & Hreset & Hrun & ->).
  apply reset_agents_log in Hreset. subst l3.
  apply bind_Ok in Hrun.
  destruct Hrun as ([[env outs] d] & l5 & l6 & Hstart & Hrun & ->).
  apply runner_reset_log in Hstart. destruct Hstart as [Hc5 _].
  cbv beta iota in Hrun.
  apply bind_Ok in Hrun. destruct Hrun as (s & l7 & l8 & Hloop & Hrun & ->).
  apply bind_Ok in Hrun.
  destruct Hrun as ([final_agents final_actions] & l9 & l10 & Hfinal & Hrun & ->).
  apply ret_Ok in Hrun. destruct Hrun as [_ ->].
  apply act_agents_Ok in Hfinal. destruct Hfinal as (_ & -> & _).
  apply run_loop_count in Hloop. simpl in Hloop.
  destruct Hloop as (Hsteps & Hfuel & Hlast & _).
  rewrite !count_steps_app, count_steps_resets, Hc5, count_steps_acts.
  simpl. rewrite !Nat.add_0_r. split; [exact Hfuel|].
  destruct (count_steps l7) as [|c] eqn:Hc.
  - destruct (max_step self); auto. simpl. lia.
  - assert (Hlt : int_lt_float (ls_step s - 1) (max_step self) = true)
      by (apply Hlast; discriminate).
    destruct (max_step self) as [q| | |]; try discriminate; [|exact I].
    apply int_lt_float_ceiling in Hlt. lia.
Qed.

(** X16. The [while] loop stops only on its test: a loop that returns
    has made exactly as many cycles as its step counter moved, it entered
    the last of them (if it made any) with the counter below the limit,
    and it stops with the done flag set or with a counter that is not
    below the limit: at or above a finite limit, anywhere when the limit
    is NaN or minus infinity, and never with an infinite limit. *)
Theorem loop_stops_on_done_or_limit (limit : pyfloat) (fuel : nat)
    (s s' : state) (l : list ev) :
  run_loop fuel limit s = Ok (s', l) ->
  ls_step s' = ls_step s + Z.of_nat (count_steps l)
  /\ (count_steps l <> 0%nat -> int_lt_float (ls_step s' - 1) limit = true)
  /\ (ls_done s' = true
      \/ match limit with
         | Finite q => (q <= inject_Z (ls_step s'))%Q
         | PosInf => False
         | NegInf | NaN => True
         end).
Proof.
  intros Hloop. apply run_loop_count in Hloop.
  destruct Hloop as (Hsteps & _ & Hlast & Hexit).
  split; [exact Hsteps|]. split; [exact Hlast|].
  unfold loop_test in Hexit. apply andb_false_iff in Hexit.
  destruct Hexit as [Hlim|Hdone].
  - right. destruct limit as [q| | |]; try exact I; [|discriminate].
    simpl in Hlim. apply negb_false_iff in Hlim.
    now apply Qle_bool_iff.
  - left. now apply negb_false_iff in Hdone.
Qed.


(** X18. Every participant the environment reports at the reset needs an
    agent: with agents that return, when the reset reports a participant
    that has no agent under its name (for a classic environment, when no
    agent is called ["single_agent_name"]), the episode raises [KeyError],
    in its first cycle or, when the limit lets no cycle run, in the final
    calls. *)
Theorem participant_without_agent (fuel : nat) (self : EnvironmentRunner G E)
    (single_agent : list A) (agents local : dict A) :
  local_agents single_agent agents = Ok local ->
  agents_return (A := A) ->
  match er_env self with
  | Gym g => (exists g' o, gym_reset g = Ok (g', o)) /\ ~ In san (keys local)
  | Multi e =>
      exists e' obs name,
        reset e = Ok (e', obs)
        /\ In name (keys obs)
        /\ ~ In name (keys local)
  end ->
  _run_once (S fuel) self single_agent agents = Raise KeyError.
Proof.
  intros Hlocal Hagents Henv.
  destruct (reset_agents_returns local local Hagents)
    as (local1 & Hr & Hkeys1); [auto|].
  assert (Hstart : exists env1 outs l,
             runner_reset (er_env self) = Ok ((env1, outs, false), l)
             /\ exists name, In name (keys outs) /\ ~ In name (keys local1)).
  { rewrite Hkeys1. destruct (er_env self) as [g|e]; simpl.
    - destruct Henv as ((g' & o & Hg) & Hnot). rewrite Hg. simpl.
      eexists _, _, _. split; [reflexivity|].
      exists san. split; [now left | exact Hnot].
    - destruct Henv as (e' & obs & name & He & Hin & Hnot). rewrite He. simpl.
      eexists _, _, _. split; [reflexivity|].
      exists name. split; [now apply dict_of_items_keys | exact Hnot]. }
  destruct Hstart as (env1 & outs & l & Hstart & Hmissing).
  pose proof (act_agents_raises local1 outs [] Hagents Hmissing) as Hact.
  set (s0 := {| ls_env := env1; ls_agents := local1;
                ls_outcomes := outs; ls_done := false;
                ls_reward_sum := []; ls_step := 0 |}).
  assert (Hend : bind (run_loop (S fuel) (max_step self) s0)
                   (fun s => act_agents (ls_agents s) (ls_outcomes s) [])
                 = Raise KeyError).
  { simpl run_loop. destruct (loop_test (max_step self) s0).
    - unfold loop_body. simpl ls_agents. simpl ls_outcomes.
      rewrite Hact. reflexivity.
    - simpl. rewrite Hact. reflexivity. }
  unfold _run_once. rewrite Hlocal.
  eapply bind_raises; [reflexivity|].
  eapply bind_raises; [exact Hr|].
  eapply bind_raises; [exact Hstart|]. cbv beta iota. fold s0.
  apply (bind_bind_raises _ _ (fun s final => ret _)). exact Hend.
Qed.

(** X19. An episode that returns has rewarded supplied agents only and
    has kept the agents it was given: the names of its reward sums are
    distinct and are names of the named agents (["single_agent_name"]
    when the agent is unnamed), the named agents come back under the same
    names in the same order, and the runner keeps its kind of environment
    and its repetition count. *)
Theorem episode_rewards_supplied_agents (fuel : nat)
    (self self' : EnvironmentRunner G E) (single_agent single' : list A)
    (agents agents' : dict A) (rewards : dict Z) (log : list ev) :
  _run_once fuel self single_agent agents
  = Ok ((rewards, self', single', agents'), log) ->
  dict_wf rewards
  /\ (forall name,
        In name (keys rewards) ->
        if truthy agents then In name (keys agents) else name = san)
  /\ keys agents' = keys agents
  /\ is_gym (er_env self') = is_gym (er_env self)
  /\ num_repetitions self' = num_repetitions self.
Proof.
  intros Hrun. apply run_once_Ok in Hrun.
  destruct Hrun as (Hwf & Hincl & Hkeys & Hnum & Hgym & _).
  repeat split; auto.
  intros name Hin. apply Hincl in Hin. unfold initial_sums in Hin.
  destruct (truthy agents).
  - now apply dict_of_items_keys in Hin.
  - destruct Hin as [<-|[]]. reflexivity.
Qed.

End RunnerMore.

(** ** The further properties on the concrete games *)

Lemma outcomes_roundtrip_witness :
  dict_wf outcomes0
  /\ ~ In "__all__" (keys outcomes0)
  /\ from_multiagent_step
       [("player_0", 7%nat); ("player_1", 9%nat)]
       [("player_0", Some 1); ("player_1", None)]
       [("player_0", false); ("player_1", true); ("__all__", true)]
       [("player_0", []); ("player_1", [])]
     = (outcomes0, true).
Proof.
  assert (Hwf : dict_wf outcomes0).
  { unfold dict_wf; simpl. repeat constructor; simpl; intuition discriminate. }
  assert (Hall : ~ In "__all__" (keys outcomes0)).
  { simpl. intuition discriminate. }
  split; [exact Hwf|]. split; [exact Hall|].
  exact (outcomes_roundtrip outcomes0 true Hwf Hall).
Defined.

Lemma reset_needs_every_delegated_agent_witness :
  reset (pm_env (turns_wrapped false))
  = Ok (mkTurns false 0, [("player_0", 0%nat)])
  /\ PartialMultiAgentEnv_reset (turns_wrapped false) = Raise KeyError
  /\ exists w' obs,
       PartialMultiAgentEnv_reset (turns_wrapped true)
       = Ok ((w', obs), [EnvReset]).
Proof.
  assert (Hlone : reset (pm_env (turns_wrapped false))
                  = Ok (mkTurns false 0, [("player_0", 0%nat)]))
    by reflexivity.
  assert (Hboth : reset (pm_env (turns_wrapped true))
                  = Ok (mkTurns true 0, table 0%nat))
    by reflexivity.
  split; [exact Hlone|]. split.
  - apply (proj1 (reset_needs_every_delegated_agent _ _ Hlone)).
    exists "player_1". split; [now left|]. simpl. intuition discriminate.
  - apply (proj2 (reset_needs_every_delegated_agent _ _ Hboth)).
    intros name [<-|[]]. simpl. auto.
Defined.

Lemma reset_exposes_the_rest_witness :
  PartialMultiAgentEnv_reset wrapped
  = Ok ((wrapped_ready, [("player_0", 0%nat)]), [EnvReset])
  /\ (dict_wf (table 0%nat) ->
      [("player_0", 0%nat)] = not_delegated delegate (table 0%nat)
      /\ dict_get "player_1" (pm_agents_outcome wrapped_ready)
         = Some (mkStepOutcome 0%nat None false [])).
Proof.
  assert (Hr : PartialMultiAgentEnv_reset wrapped
               = Ok ((wrapped_ready, [("player_0", 0%nat)]), [EnvReset]))
    by reflexivity.
  split; [exact Hr|].
  destruct (reset_exposes_the_rest _ _ _ _ Hr) as (r & Hreset & _ & _ & Hrest).
  simpl in Hreset. inversion Hreset; subst r. simpl in Hrest.
  intros Hwf. destruct (Hrest Hwf) as [Hobs Hcache]. split; [exact Hobs|].
  destruct (Hcache "player_1") as (o & Ho & Hget); [now left|].
  inversion Ho; subst o. exact Hget.
Defined.

Lemma step_needs_every_delegated_agent_witness :
  act_agents (pm_agents (turns_wrapped true))
    (pm_agents_outcome (turns_wrapped true)) []
  = Ok ((delegate, [("player_1", 0)]),
        [AgentAct "player_1" (mkStepOutcome 0%nat None false [])])
  /\ step (pm_env (turns_wrapped true))
       (update [("player_1", 0)] [("player_0", 2)])
     = Ok (mkTurns true 1, ([("player_0", 1%nat)], [], [], []))
  /\ PartialMultiAgentEnv_step (turns_wrapped true) [("player_0", 2)]
     = Raise KeyError.
Proof.
  assert (Hact : act_agents (pm_agents (turns_wrapped true))
                   (pm_agents_outcome (turns_wrapped true)) []
                 = Ok ((delegate, [("player_1", 0)]),
                       [AgentAct "player_1"
                          (mkStepOutcome 0%nat None false [])]))
    by reflexivity.
  assert (Hstep : step (pm_env (turns_wrapped true))
                    (update [("player_1", 0)] [("player_0", 2)])
                  = Ok (mkTurns true 1, ([("player_0", 1%nat)], [], [], [])))
    by reflexivity.
  split; [exact Hact|]. split; [exact Hstep|].
  apply (proj1 (step_needs_every_delegated_agent _ _ _ _ _ _ _ _ _ _
                  Hact Hstep)).
  exists "player_1". split; [now left|]. simpl. intuition discriminate.
Defined.

Lemma step_forwards_the_rest_witness :
  PartialMultiAgentEnv_step wrapped_ready [("player_0", 2)]
  = Ok (({| pm_env := mkDuel 1;
            pm_agents := delegate;
            pm_agent_names := ["player_0"];
            pm_observation_space := tt;
            pm_action_space := tt;
            pm_agents_outcome :=
              [("player_1", mkStepOutcome 1%nat (Some 1) true [])] |},
         ([("player_0", 1%nat)], [("player_0", Some 0)],
          [("player_0", true); ("__all__", true)], [("player_0", [])])),
        [AgentAct "player_1" (mkStepOutcome 0%nat None false []);
         EnvStep [("player_1", 0); ("player_0", 2)]])
  /\ exists full_action_dict base_obs base_rew base_dn base_inf,
       step (mkDuel 0) full_action_dict
       = Ok (mkDuel 1, (base_obs, base_rew, base_dn, base_inf))
       /\ Some true = Some (get_default "__all__" false base_dn).
Proof.
  assert (Hs : PartialMultiAgentEnv_step wrapped_ready [("player_0", 2)]
               = Ok (({| pm_env := mkDuel 1;
                         pm_agents := delegate;
                         pm_agent_names := ["player_0"];
                         pm_observation_space := tt;
                         pm_action_space := tt;
                         pm_agents_outcome :=
                           [("player_1",
                             mkStepOutcome 1%nat (Some 1) true [])] |},
                      ([("player_0", 1%nat)], [("player_0", Some 0)],
                       [("player_0", true); ("__all__", true)],
                       [("player_0", [])])),
                     [AgentAct "player_1" (mkStepOutcome 0%nat None false []);
                      EnvStep [("player_1", 0); ("player_0", 2)]]))
    by reflexivity.
  split; [exact Hs|].
  destruct (step_forwards_the_rest _ _ _ _ _ _ _ _ Hs)
    as (full & bo & br & bd & bi & Hstep & Hall & _).
  exists full, bo, br, bd, bi. split; [exact Hstep | exact Hall].
Defined.

Lemma step_before_reset_asks_no_agent_witness :
  pm_agents_outcome wrapped = []
  /\ dict_wf [("player_0", 2)]
  /\ forall r log,
       PartialMultiAgentEnv_step wrapped [("player_0", 2)] = Ok (r, log) ->
       log = [EnvStep [("player_0", 2)]].
Proof.
  assert (Hempty : pm_agents_outcome wrapped = []) by reflexivity.
  assert (Hwf : dict_wf [("player_0", 2)]).
  { unfold dict_wf; simpl. repeat constructor; simpl; intuition. }
  split; [exact Hempty|]. split; [exact Hwf|].
  intros r log Hs.
  exact (proj1 (proj2 (step_before_reset_asks_no_agent wrapped
                         [("player_0", 2)] Hempty Hwf) r log Hs)).
Defined.

Lemma delegated_agents_act_once_witness :
  dict_wf (pm_agents wrapped)
  /\ PartialMultiAgentEnv_reset wrapped
     = Ok ((wrapped_ready, [("player_0", 0%nat)]), [EnvReset])
  /\ keys (pm_agents_outcome wrapped_ready) = ["player_1"]
  /\ forall action_dict r log,
       PartialMultiAgentEnv_step wrapped_ready action_dict = Ok (r, log) ->
       exists full_action_dict,
         log = [AgentAct "player_1" (mkStepOutcome 0%nat None false []);
                EnvStep full_action_dict].
Proof.
  assert (Hwf : dict_wf (pm_agents wrapped)).
  { unfold dict_wf; simpl. repeat constructor; simpl; intuition. }
  assert (Hr : PartialMultiAgentEnv_reset wrapped
               = Ok ((wrapped_ready, [("player_0", 0%nat)]), [EnvReset]))
    by reflexivity.
  split; [exact Hwf|]. split; [exact Hr|].
  destruct (delegated_agents_act_once wrapped wrapped_ready Hwf)
    as (Hkeys & _ & Hlog).
  { left. eexists _, _. exact Hr. }
  split; [exact Hkeys | exact Hlog].
Defined.

Lemma copy_starts_afresh_witness :
  PartialMultiAgentEnv_copy wrapped_ready
  = Ok (wrapped, [EnvCopy; AgentCopy "player_1"; EnvReset])
  /\ pm_agents_outcome wrapped = []
  /\ agent_names wrapped = ["player_0"].
Proof.
  assert (Hcopy : PartialMultiAgentEnv_copy wrapped_ready
                  = Ok (wrapped, [EnvCopy; AgentCopy "player_1"; EnvReset]))
    by reflexivity.
  split; [exact Hcopy|].
  destruct (copy_starts_afresh _ _ _ Hcopy) as (_ & Hempty & Hnames & _).
  split; [exact Hempty | exact Hnames].
Defined.

Lemma single_agent_reset_observation_witness :
  reset (pm_env (sa_env narrowed)) = Ok (mkDuel 0, table 0%nat)
  /\ dict_wf (table 0%nat)
  /\ mem (sa_agent_name narrowed) (pm_agents (sa_env narrowed)) = false
  /\ exists self',
       SingleAgentEnv_reset narrowed = Ok ((self', 0%nat), [EnvReset])
       /\ sa_agent_name self' = "player_0".
Proof.
  assert (Hreset : reset (pm_env (sa_env narrowed))
                   = Ok (mkDuel 0, table 0%nat)) by reflexivity.
  assert (Hwf : dict_wf (table 0%nat)).
  { unfold dict_wf; simpl. repeat constructor; simpl; intuition discriminate. }
  assert (Hmem : mem (sa_agent_name narrowed) (pm_agents (sa_env narrowed))
                 = false) by reflexivity.
  split; [exact Hreset|]. split; [exact Hwf|]. split; [exact Hmem|].
  apply (single_agent_reset_observation narrowed _ Hreset Hwf); [|exact Hmem].
  intros name [<-|[]]. simpl. auto.
Defined.

Lemma single_agent_step_needs_the_agent_witness :
  (exists w',
      step (sa_env turns_narrowed) [(sa_agent_name turns_narrowed, 2)]
      = Ok (w', ([], [], [("__all__", false)], [])))
  /\ ~ In (sa_agent_name turns_narrowed) (keys (@nil (string * nat)))
  /\ SingleAgentEnv_step turns_narrowed 2 = Raise KeyError.
Proof.
  assert (Hstep : exists w',
             step (sa_env turns_narrowed) [(sa_agent_name turns_narrowed, 2)]
             = Ok (w', ([], [], [("__all__", false)], []))).
  { eexists. reflexivity. }
  assert (Hnot : ~ In (sa_agent_name turns_narrowed)
                   (keys (@nil (string * nat)))) by (simpl; tauto).
  split; [exact Hstep|]. split; [exact Hnot|].
  destruct Hstep as [w' Hstep].
  exact (single_agent_step_needs_the_agent turns_narrowed 2 _ _ _ _ _
           Hstep Hnot).
Defined.

Lemma run_argument_check_witness :
  let refused :=
    ValueError
      (Text "Either provide 1 unnamed agent or several named agents") in
  local_agents [mkConstant 2] [] = Ok [(san, mkConstant 2)]
  /\ local_agents [] both_agents = Ok both_agents
  /\ 1 <= num_repetitions duel_runner
  /\ run 5 duel_runner [mkConstant 2; mkConstant 0] [] = Raise refused
  /\ run 5 duel_runner [mkConstant 2] both_agents = Raise refused
  /\ run 5 duel_runner (@nil constant) [] = Raise refused
  /\ _run_once 5 duel_runner [] [("self", mkConstant 2)] = Raise TypeError
  /\ run 5 duel_runner [] [("self", mkConstant 2)] = Raise TypeError.
Proof.
  assert (Hk : 1 <= num_repetitions duel_runner) by (simpl; lia).
  split; [exact (run_argument_check 5 duel_runner [mkConstant 2] [])|].
  split; [exact (run_argument_check 5 duel_runner [] both_agents)|].
  split; [exact Hk|]. split; [|split; [|split]].
  - exact (proj2 (run_argument_check 5 duel_runner
                    [mkConstant 2; mkConstant 0] []) Hk).
  - exact (proj2 (run_argument_check 5 duel_runner
                    [mkConstant 2] both_agents) Hk).
  - exact (proj2 (run_argument_check 5 duel_runner (@nil constant) []) Hk).
  - exact (run_argument_check 5 duel_runner [] [("self", mkConstant 2)]).
Defined.

Lemma zero_repetitions_divide_by_zero_witness :
  num_repetitions {| er_env := @Multi solo duel (mkDuel 0);
                     num_repetitions := 0;
                     max_step := None |} = 0
  /\ run 5 {| er_env := @Multi solo duel (mkDuel 0);
              num_repetitions := 0;
              max_step := None |} (@nil constant) []
     = Raise ZeroDivisionError.
Proof.
  split; [reflexivity|].
  exact (zero_repetitions_divide_by_zero 5
           {| er_env := @Multi solo duel (mkDuel 0);
              num_repetitions := 0;
              max_step := None |} (@nil constant) [] eq_refl).
Defined.

Lemma negative_repetitions_run_nothing_witness :
  num_repetitions {| er_env := @Multi solo duel (mkDuel 0);
                     num_repetitions := -2;
                     max_step := None |} < 0
  /\ run 5 {| er_env := @Multi solo duel (mkDuel 0);
              num_repetitions := -2;
              max_step := None |} [] both_agents
     = Ok ((Mapping [("player_0", (inject_Z 0 / inject_Z (-2))%Q);
                     ("player_1", (inject_Z 0 / inject_Z (-2))%Q)],
            {| er_env := Multi (mkDuel 0);
               num_repetitions := -2;
               max_step := None |}, [], both_agents), []).
Proof.
  assert (Hk : num_repetitions {| er_env := @Multi solo duel (mkDuel 0);
                                  num_repetitions := -2;
                                  max_step := None |} < 0)
    by (simpl; lia).
  split; [exact Hk|].
  exact (negative_repetitions_run_nothing 5 _ [] both_agents Hk).
Defined.

Lemma episode_steps_bounded_witness :
  let runner :=
    {| er_env := @Multi solo endless (mkEndless 0);
       num_repetitions := 1;
       max_step := Finite (5 # 2) |} in
  exists r log,
    _run_once 5 runner [] both_agents = Ok (r, log)
    /\ (count_steps log <= 5)%nat
    /\ Z.of_nat (count_steps log) <= 3.
Proof.
  intros runner.
  assert (Hrun : exists r log,
             _run_once 5 runner [] both_agents = Ok (r, log)).
  { eexists _, _. reflexivity. }
  destruct Hrun as (r & log & Hrun). exists r, log.
  split; [exact Hrun|].
  destruct (episode_steps_bounded 5 runner [] both_agents r log Hrun)
    as [Hfuel Hlimit].
  split; [exact Hfuel|]. exact Hlimit.
Defined.

Lemma loop_stops_on_done_or_limit_witness :
  exists s' l,
    run_loop 5 None
      {| ls_env := @Multi solo duel (mkDuel 0);
         ls_agents := both_agents;
         ls_outcomes := fst (from_multiagent_step (table 0%nat) [] [] []);
         ls_done := false;
         ls_reward_sum := [];
         ls_step := 0 |} = Ok (s', l)
    /\ ls_step s' = 0 + Z.of_nat (count_steps l)
    /\ ls_done s' = true.
Proof.
  assert (Hloop : exists s' l,
             run_loop 5 None
               {| ls_env := @Multi solo duel (mkDuel 0);
                  ls_agents := both_agents;
                  ls_outcomes :=
                    fst (from_multiagent_step (table 0%nat) [] [] []);
                  ls_done := false;
                  ls_reward_sum := [];
                  ls_step := 0 |} = Ok (s', l)).
  { eexists _, _. reflexivity. }
  destruct Hloop as (s' & l & Hloop). exists s', l.
  split; [exact Hloop|].
  destruct (loop_stops_on_done_or_limit _ _ _ _ _ Hloop)
    as (Hsteps & _ & Hexit).
  split; [exact Hsteps|].
  destruct Hexit as [Hdone|Hlimit]; [exact Hdone | exact (False_ind _ Hlimit)].
Defined.


Lemma participant_without_agent_witness :
  local_agents [] [("player_0", mkConstant 2)]
  = Ok [("player_0", mkConstant 2)]
  /\ @agents_return nat Z Z constant _
  /\ reset (mkDuel 0) = Ok (mkDuel 0, table 0%nat)
  /\ ~ In "player_1" (keys [("player_0", mkConstant 2)])
  /\ _run_once 1 duel_runner [] [("player_0", mkConstant 2)]
     = Raise KeyError.
Proof.
  assert (Hlocal : local_agents [] [("player_0", mkConstant 2)]
                   = Ok [("player_0", mkConstant 2)]) by reflexivity.
  assert (Hagents : @agents_return nat Z Z constant _).
  { split; intros; eexists; try eexists; reflexivity. }
  assert (Hreset : reset (mkDuel 0) = Ok (mkDuel 0, table 0%nat))
    by reflexivity.
  assert (Hnot : ~ In "player_1" (keys [("player_0", mkConstant 2)])).
  { simpl. intuition discriminate. }
  repeat (split; [assumption|]).
  apply (participant_without_agent 0 duel_runner []
           [("player_0", mkConstant 2)] [("player_0", mkConstant 2)]
           Hlocal Hagents).
  simpl. exists (mkDuel 0), (table 0%nat), "player_1".
  split; [exact Hreset|]. split; [simpl; auto | exact Hnot].
Defined.

Lemma episode_rewards_supplied_agents_witness :
  exists self' log,
    _run_once 5 duel_runner [] both_agents
    = Ok ((duel_rewards, self', [], both_agents), log)
    /\ dict_wf duel_rewards
    /\ forall name,
         In name (keys duel_rewards) -> In name (keys both_agents).
Proof.
  assert (Hrun : exists self' log,
             _run_once 5 duel_runner [] both_agents
             = Ok ((duel_rewards, self', [], both_agents), log)).
  { eexists _, _. reflexivity. }
  destruct Hrun as (self' & log & Hrun). exists self', log.
  split; [exact Hrun|].
  destruct (episode_rewards_supplied_agents _ _ _ _ _ _ _ _ _ Hrun)
    as (Hwf & Hnames & _).
  split; [exact Hwf | exact Hnames].
Defined.

(** ** SingleAgentEnv: construction and copy *)

Section AdapterConstruction.

Context {Obs Action Val Space E A : Type}.
Context {HE : @MultiAgentEnv Obs Action Val Space E}.
Context {HA : @Agent Obs Action Val A}.

Local Abbreviation Partial := (@PartialMultiAgentEnv Obs Val Space E A).
Local Abbreviation Single := (@SingleAgentEnv Obs Val Space E A).
Local Abbreviation ev := (event Obs Action Val).

Lemma SingleAgentEnv_init_Ok (w : Partial) (c : Single) (log : list ev) :
  SingleAgentEnv_init w = Ok (c, log) ->
  agent_names w = [sa_agent_name c]
  /\ sa_env c = w
  /\ sa_observation_space c = observation_space w
  /\ sa_action_space c = action_space w
  /\ log = [EnvCopy; EnvReset]
  /\ exists w1 r, copy w = Ok w1 /\ reset w1 = Ok r.
Proof.
  unfold SingleAgentEnv_init. intros Hinit.
  apply bind_Ok in Hinit. destruct Hinit as (u & l1 & l2 & Hassert & Hinit & ->).
  unfold assert_ in Hassert.
  destruct (Nat.eqb (List.length (agent_names w)) 1) eqn:Hone;
    [|discriminate].
  apply ret_Ok in Hassert. destruct Hassert as [_ ->].
  apply bind_Ok in Hinit. destruct Hinit as (w1 & l3 & l4 & Hcopy & Hinit & ->).
  apply call_Ok in Hcopy. destruct Hcopy as [Hcopy ->].
  apply bind_Ok in Hinit. destruct Hinit as (r & l5 & l6 & Hreset & Hinit & ->).
  apply call_Ok in Hreset. destruct Hreset as [Hreset ->].
  apply bind_Ok in Hinit. destruct Hinit as (an & l7 & l8 & Hname & Hinit & ->).
  apply lift_Ok in Hname. destruct Hname as [Hname ->].
  apply ret_Ok in Hinit. destruct Hinit as [<- ->].
  cbn [sa_agent_name sa_env sa_observation_space sa_action_space].
  apply Nat.eqb_eq in Hone.
  destruct (agent_names w) as [|an0 [|an1 rest]]; try discriminate.
  inversion Hname; subst. repeat split; auto.
  exists w1, r. split; assumption.
Qed.

(** X20. A narrowing that returns has found exactly one exposed name,
    which becomes the agent of the adapter, and wraps the very wrapper it
    was given: the copy it builds and resets on the way is dropped, so the
    wrapper is left as it was (with its cache, reset or not). *)
Theorem narrowing_keeps_the_wrapper (w : Partial) (c : Single)
    (log : list ev) :
  as_single_agent w = Ok (c, log) ->
  agent_names w = [sa_agent_name c]
  /\ sa_env c = w
  /\ log = [EnvCopy; EnvReset]
  /\ exists w1 r, copy w = Ok w1 /\ reset w1 = Ok r.
Proof.
  unfold as_single_agent. intros Hinit.
  apply SingleAgentEnv_init_Ok in Hinit.
  destruct Hinit as (Hnames & Henv & _ & _ & Hlog & Hcopy).
  repeat split; assumption.
Qed.

(** X21. The copy of an adapter wraps a copy of its wrapper, made before
    the narrowing and not reset through the wrapper since: the cache of
    that wrapper is empty, its base environment is a reset copy of the
    current one, and it exposes the one name that the copy of the adapter
    takes as its agent. *)
Theorem single_agent_copy_starts_afresh (self c : Single) (log : list ev) :
  SingleAgentEnv_copy self = Ok (c, log) ->
  log = [EnvCopy; EnvCopy; EnvReset]
  /\ pm_agents_outcome (sa_env c) = []
  /\ agent_names (sa_env c) = [sa_agent_name c]
  /\ exists env' r,
       copy (pm_env (sa_env self)) = Ok env'
       /\ reset env' = Ok r
       /\ pm_env (sa_env c) = fst r.
Proof.
  unfold SingleAgentEnv_copy. intros Hcopy.
  apply bind_Ok in Hcopy. destruct Hcopy as (w1 & l1 & l2 & Hc & Hinit & ->).
  apply call_Ok in Hc. destruct Hc as [Hc ->].
  apply SingleAgentEnv_init_Ok in Hinit.
  destruct Hinit as (Hnames & Henv & _ & _ & -> & _).
  simpl in Hc. apply forget_Ok in Hc. destruct Hc as [l Hc].
  unfold PartialMultiAgentEnv_copy in Hc. apply init_Ok in Hc.
  destruct Hc as (env' & agents' & r & Hbase & _ & Hreset & _ & _ & Hw1).
  rewrite Henv. split; [reflexivity|]. split; [now rewrite Hw1|].
  split; [exact Hnames|].
  exists env', r. split; [exact Hbase|]. split; [exact Hreset|].
  now rewrite Hw1.
Qed.

End AdapterConstruction.

Lemma narrowing_keeps_the_wrapper_witness :
  as_single_agent wrapped_ready = Ok (narrowed, [EnvCopy; EnvReset])
  /\ sa_env narrowed = wrapped_ready
  /\ agent_names wrapped_ready = ["player_0"].
Proof.
  assert (Hnarrow : as_single_agent wrapped_ready
                    = Ok (narrowed, [EnvCopy; EnvReset])) by reflexivity.
  split; [exact Hnarrow|].
  destruct (narrowing_keeps_the_wrapper _ _ _ Hnarrow)
    as (Hnames & Henv & _).
  split; [exact Henv | exact Hnames].
Defined.

Lemma single_agent_copy_starts_afresh_witness :
  exists c,
    SingleAgentEnv_copy narrowed = Ok (c, [EnvCopy; EnvCopy; EnvReset])
    /\ pm_agents_outcome (sa_env c) = []
    /\ agent_names (sa_env c) = [sa_agent_name c].
Proof.
  assert (Hcopy : exists c,
             SingleAgentEnv_copy narrowed
             = Ok (c, [EnvCopy; EnvCopy; EnvReset])).
  { eexists. reflexivity. }
  destruct Hcopy as [c Hcopy]. exists c. split; [exact Hcopy|].
  destruct (single_agent_copy_starts_afresh _ _ _ Hcopy)
    as (_ & Hempty & Hnames & _).
  split; [exact Hempty | exact Hnames].
Defined.
